(** * SpockBot physics helper: [spock/plugins/helpers/physics.py]

    A shallow embedding of [PhysicsCore] and [PhysicsPlugin] and of the
    breadth-first search [PhysicsPlugin.get_mtv], with the properties of the
    design document stated and settled against it.

    Numbers.  Python floats are idealised as exact rationals ([Q]); every
    comparison of the source is the corresponding comparison on [Q].  The
    search of [get_mtv] is also given over binary64 numbers ([Double]), for
    the properties that depend on how a sum is rounded.

    Collaborators.  [spock.vector.Vector3], [spock.mcdata.constants],
    [physics_tools.MTVTest], the world and the block table are not part of
    the helper.  The vector type is modelled from the design document and
    from the way the helper uses it; constants, the collision primitive,
    the slipperiness lookup and [Vector3.norm] are parameters ([Env]). *)

From Stdlib Require Import QArith Qround ZArith List Bool String Lia.
From Corelib Require PrimFloat.
From stdpp Require Import base option list gmap strings.

Import ListNotations.
Local Open Scope Q_scope.

(** ** Three-dimensional vectors *)

Module Vector3.

(** Modelled from the spec: [spock.vector.Vector3] is missing from the
    sources; "3D vector with arithmetic, normalization, squared-distance,
    ordering by magnitude". *)
Record t : Type := new { x : Q; y : Q; z : Q }.

(** [Vector3()] *)
Definition zero : t := new 0 0 0.

(** [a + b] *)
Definition add (a b : t) : t := new (x a + x b) (y a + y b) (z a + z b).

(** [a - b] *)
Definition sub (a b : t) : t := new (x a - x b) (y a - y b) (z a - z b).

(** [a * k] for a scalar [k] *)
Definition mul (a : t) (k : Q) : t := new (x a * k) (y a * k) (z a * k).

(** [a.dist_sq()]: the squared magnitude *)
Definition dist_sq (a : t) : Q := x a * x a + y a * y a + z a * z a.

(** Truth value of a number: [bool(k)], false at zero only. *)
Definition nonzero (k : Q) : bool := negb (Qeq_bool k 0).

(** Modelled from the spec: truth value of a vector, as [apply_accel]
    relies on it ("if intent is non-zero"): false for the zero vector
    only. *)
Definition truthy (a : t) : bool := nonzero (x a) || nonzero (y a) || nonzero (z a).

(** Modelled from the spec: [a < b], "ordering by magnitude". *)
Definition lt (a b : t) : bool := negb (Qle_bool (dist_sq b) (dist_sq a)).

(** [v.y = k] and its siblings, on the value held by the object. *)
Definition set_x (a : t) (k : Q) : t := new k (y a) (z a).
Definition set_y (a : t) (k : Q) : t := new (x a) k (z a).
Definition set_z (a : t) (k : Q) : t := new (x a) (y a) k.

End Vector3.

Abbreviation Vector3 := Vector3.t.

#[global] Instance Vector3_inhabited : Inhabited Vector3 := populate Vector3.zero.

(** Python's [all(xs)] over vectors and [min(xs)] of a non-empty list:
    [min] keeps the first of several least elements, replacing its current
    best only by a strictly smaller item. *)
Definition py_all (xs : list Vector3) : bool := forallb Vector3.truthy xs.

Fixpoint py_min (best : Vector3) (rest : list Vector3) : Vector3 :=
  match rest with
  | [] => best
  | item :: rest' => py_min (if Vector3.lt item best then item else best) rest'
  end.

(** [FP_MAGIC = 1e-4] *)
Definition FP_MAGIC : Q := 1 # 10000.

(** ** Collaborators *)

(** [spock.mcdata.constants], as far as the helper reads it. *)
Record Constants : Type := {
  PHY_BASE_DRG : Q;
  PHY_DRG_MUL : Q;
  PHY_GAV_ACC : Q;
  PHY_JMP_ABS : Q;
  PHY_JMP_ACC : Q;
  PHY_JMP_MUL : Q;
  PHY_SPR_MUL : Q;
  BASE_GND_SLIP : Q
}.

Record BoundingBox : Type := { w : Q; d : Q; h : Q }.

Inductive exn : Type :=
| AttributeError (attr : string)
| ZeroDivisionError.

Record Env : Type := {
  const : Constants;
  (** [self.col.bounding_box] *)
  bounding_box : BoundingBox;
  (** [self.col.check_collision(pos, current_vector)]; the world is only
      read during a tick, so the primitive is a function of its arguments. *)
  check_collision : Vector3 -> Vector3 -> list Vector3;
  (** [mapdata.get_block( *world.get_block(x, y, z)).slipperiness] *)
  block_slipperiness : Z -> Z -> Z -> Q;
  (** [Vector3.norm]; it may raise. *)
  norm : Vector3 -> exn + Vector3
}.

(** ** The search of [get_mtv]

    The loop variables of the first [while] are the deque [q] and
    [transform_vectors]; [pos] and [self.vec] are fixed while it runs. *)

Record frame : Type := Frame { q : list Vector3; transform_vectors : list Vector3 }.

(** [transform_vectors = []; q = collections.deque()] *)
Definition entry : frame := Frame [] [].

(** [while q or not transform_vectors] *)
Definition while_cond (f : frame) : bool :=
  match q f, transform_vectors f with
  | [], _ :: _ => false
  | _, _ => true
  end.

(** [q.popleft() if q else Vector3()] and what is left of the deque. *)
Definition popleft (f : frame) : Vector3 * list Vector3 :=
  match q f with
  | c :: q' => (c, q')
  | [] => (Vector3.zero, [])
  end.

(** [test_vec.dist_sq() <= self.vec.dist_sq() + FP_MAGIC] with
    [test_vec = self.vec + current_vector + vector], in exact arithmetic;
    [Double.within_cap] is the same test in doubles. *)
Definition within_cap (vec current_vector vector : Vector3) : bool :=
  Qle_bool (Vector3.dist_sq (Vector3.add (Vector3.add vec current_vector) vector))
           (Vector3.dist_sq vec + FP_MAGIC).

(** The [for] loop: the candidates appended to [q], in order. *)
Fixpoint appended (vec current_vector : Vector3) (tvs : list Vector3) : list Vector3 :=
  match tvs with
  | [] => []
  | vector :: tvs' =>
      if within_cap vec current_vector vector
      then Vector3.add current_vector vector :: appended vec current_vector tvs'
      else appended vec current_vector tvs'
  end.

Inductive body_result : Type :=
| Next (f : frame)
| Broke (current_vector : Vector3) (q : list Vector3).

Inductive search_exit : Type :=
| Break (current_vector : Vector3) (q : list Vector3)
| Else.

Section Search.

Variable E : Env.
(** [pos] of [get_mtv] and [self.vec] *)
Variables (pos vec : Vector3).

(** One run of the loop body. *)
Definition body (f : frame) : body_result :=
  let '(current_vector, q1) := popleft f in
  let tvs := check_collision E pos current_vector in
  if negb (py_all tvs) then Broke current_vector q1
  else Next (Frame (q1 ++ appended vec current_vector tvs) tvs).

(** The first [while ... else]: [None] when [fuel] runs of the body were
    not enough to leave it. *)
Fixpoint search (fuel : nat) (f : frame) : option search_exit :=
  if while_cond f then
    match fuel with
    | O => None
    | S fuel' =>
        match body f with
        | Broke c q1 => Some (Break c q1)
        | Next f' => search fuel' f'
        end
    end
  else Some Else.

(** The frame at the loop test after [n] runs of the body, none of which
    left the loop. *)
Fixpoint iterate (n : nat) (f : frame) : option frame :=
  match n with
  | O => Some f
  | S n' =>
      if while_cond f then
        match body f with
        | Next f' => iterate n' f'
        | Broke _ _ => None
        end
      else None
  end.

(** [not all(transform_vectors)] at a candidate. *)
Definition accepted (current_vector : Vector3) : bool :=
  negb (py_all (check_collision E pos current_vector)).

(** The second [while]: [possible_mtv] after the deque is drained. *)
Fixpoint drain (q : list Vector3) (possible_mtv : list Vector3) : list Vector3 :=
  match q with
  | [] => possible_mtv
  | current_vector :: q' =>
      if accepted current_vector
      then drain q' (possible_mtv ++ [current_vector])
      else drain q' possible_mtv
  end.

(** [min(possible_mtv)] for the list the search builds, which starts
    with the candidate that broke out of the first loop. *)
Definition min_possible (current_vector : Vector3) (q : list Vector3) : Vector3 :=
  match drain q [current_vector] with
  | [] => current_vector
  | best :: rest => py_min best rest
  end.

End Search.

(** ** State

    [PhysicsPlugin] and the [PhysicsCore] it provides share the position
    object ([self.pos] of both is [clientinfo.position]); the vectors that
    callers hand to the intent setters are objects of a store, so that a
    write through one reference is seen through every other. *)

Definition loc : Type := positive.

(** [clientinfo.position]: a vector with the [on_ground] flag. *)
Record Position : Type := { coords : Vector3; on_ground : bool }.

Record Abilities : Type := { walking_speed : Q }.

(** The attributes of a [PhysicsCore].  [__init__] binds [pos] (shared, kept
    in [State]), [direction], [move_accel] and [abilities]; [vec_attr] is
    the binding of the attribute [vec], [None] while nothing has bound it. *)
Record PhysicsCore : Type := {
  direction : loc;
  move_accel : Q;
  abilities : Abilities;
  vec_attr : option Vector3
}.

Record State : Type := {
  pos : Position;
  vec : Vector3;
  pause_physics : bool;
  pc : PhysicsCore;
  heap : gmap loc Vector3;
  log : list string
}.

Definition set_pos (p : Position) (s : State) : State :=
  {| pos := p; vec := vec s; pause_physics := pause_physics s; pc := pc s;
     heap := heap s; log := log s |}.
Definition set_vec (v : Vector3) (s : State) : State :=
  {| pos := pos s; vec := v; pause_physics := pause_physics s; pc := pc s;
     heap := heap s; log := log s |}.
Definition set_pause_physics (b : bool) (s : State) : State :=
  {| pos := pos s; vec := vec s; pause_physics := b; pc := pc s;
     heap := heap s; log := log s |}.
Definition set_pc (c : PhysicsCore) (s : State) : State :=
  {| pos := pos s; vec := vec s; pause_physics := pause_physics s; pc := c;
     heap := heap s; log := log s |}.
Definition set_heap (m : gmap loc Vector3) (s : State) : State :=
  {| pos := pos s; vec := vec s; pause_physics := pause_physics s; pc := pc s;
     heap := m; log := log s |}.
Definition set_log (l : list string) (s : State) : State :=
  {| pos := pos s; vec := vec s; pause_physics := pause_physics s; pc := pc s;
     heap := heap s; log := l |}.

Definition set_direction (l : loc) (c : PhysicsCore) : PhysicsCore :=
  {| direction := l; move_accel := move_accel c; abilities := abilities c;
     vec_attr := vec_attr c |}.
Definition set_move_accel (a : Q) (c : PhysicsCore) : PhysicsCore :=
  {| direction := direction c; move_accel := a; abilities := abilities c;
     vec_attr := vec_attr c |}.
Definition set_vec_attr (v : Vector3) (c : PhysicsCore) : PhysicsCore :=
  {| direction := direction c; move_accel := move_accel c; abilities := abilities c;
     vec_attr := Some v |}.

(** ** Computations: state, exceptions, fuel *)

Inductive outcome (A : Type) : Type :=
| Ok (a : A) (s : State)
| Raise (e : exn) (s : State)
| OutOfFuel.
Arguments Ok {A} a s.
Arguments Raise {A} e s.
Arguments OutOfFuel {A}.

Definition M (A : Type) : Type := State -> outcome A.

Definition ret {A} (a : A) : M A := fun s => Ok a s.
Definition bind {A B} (m : M A) (k : A -> M B) : M B :=
  fun s => match m s with
           | Ok a s' => k a s'
           | Raise e s' => Raise e s'
           | OutOfFuel => OutOfFuel
           end.
Definition get : M State := fun s => Ok s s.
Definition modify (f : State -> State) : M unit := fun s => Ok tt (f s).
Definition raise {A} (e : exn) : M A := fun s => Raise e s.
Definition out_of_fuel {A} : M A := fun _ => OutOfFuel.
Definition lift {A} (r : exn + A) : M A :=
  match r with inl e => raise e | inr a => ret a end.

Declare Scope py_scope.
Delimit Scope py_scope with py.
Notation "x <- m ;; k" := (bind m (fun x => k))
  (at level 100, m at next level, right associativity) : py_scope.
Notation "m ;; k" := (bind m (fun _ => k))
  (at level 100, right associativity) : py_scope.
Local Open Scope py_scope.

(** The state a call leaves behind, whether it returned or raised. *)
Definition state_of {A} (o : outcome A) : option State :=
  match o with
  | Ok _ s | Raise _ s => Some s
  | OutOfFuel => None
  end.

(** [Vector3(...)]: a new object of the store. *)
Definition alloc (v : Vector3) : M loc :=
  fun s => let l := fresh (dom (heap s)) in Ok l (set_heap (<[l := v]> (heap s)) s).

(** The value of the object behind a reference.  Every reference a caller
    holds is to an object of the store; one that is not reads as the zero
    vector. *)
Definition deref (l : loc) : M Vector3 := fun s => Ok (heap s !!! l) s.

(** [logger.warn(msg)] *)
Definition warn (msg : string) : M unit := modify (fun s => set_log (log s ++ [msg]) s).

(** ** [PhysicsCore] *)

(** [PhysicsCore.__init__(self, pos, vec, abilities)]: the argument [vec]
    is accepted and bound to nothing. *)
Definition PhysicsCore_init (dir : loc) (vec : Vector3) (ab : Abilities) : PhysicsCore :=
  {| direction := dir; move_accel := walking_speed ab; abilities := ab;
     vec_attr := None |}.

(** Reading [self.vec] on the core. *)
Definition getattr_vec : M Vector3 :=
  fun s => match vec_attr (pc s) with
           | Some v => Ok v s
           | None => Raise (AttributeError "vec") s
           end.
Definition setattr_vec (v : Vector3) : M unit :=
  modify (fun s => set_pc (set_vec_attr v (pc s)) s).

Definition jump (E : Env) : M unit :=
  s <- get;;
  if on_ground (pos s) then
    v <- getattr_vec;;
    hoz_norm <- lift (norm E (Vector3.new (Vector3.x v) 0 (Vector3.z v)));;
    v1 <- getattr_vec;;
    setattr_vec (Vector3.add v1 (Vector3.mul hoz_norm (PHY_JMP_MUL (const E))));;
    v2 <- getattr_vec;;
    setattr_vec (Vector3.set_y v2 (PHY_JMP_ABS (const E)))
  else ret tt.

Definition walk : M unit :=
  modify (fun s => set_pc (set_move_accel (walking_speed (abilities (pc s))) (pc s)) s).

Definition sprint (E : Env) : M unit :=
  modify (fun s => set_pc (set_move_accel
    (walking_speed (abilities (pc s)) * PHY_SPR_MUL (const E)) (pc s)) s).

(** [vector.y = k], through the caller's reference. *)
Definition store_y (vector : loc) (k : Q) : M unit :=
  modify (fun s => set_heap (<[vector := Vector3.set_y (heap s !!! vector) k]> (heap s)) s).

Definition move_target (vector : loc) : M unit :=
  s <- get;;
  store_y vector (Vector3.y (coords (pos s)));;
  v <- deref vector;;
  l <- alloc (Vector3.sub v (coords (pos s)));;
  modify (fun s => set_pc (set_direction l (pc s)) s).

Definition move_vector (vector : loc) : M unit :=
  store_y vector 0;;
  modify (fun s => set_pc (set_direction vector (pc s)) s).

(** ** [PhysicsPlugin] *)

Definition stop_physics : M unit :=
  modify (set_vec Vector3.zero);;
  modify (set_pause_physics true).

(** The registration of the tick handler with the event plugin is outside
    the helper. *)
Definition start_physics : M unit :=
  modify (set_pause_physics false).

Definition get_block_slip (E : Env) : M Q :=
  s <- get;;
  if on_ground (pos s) then
    let block_pos := coords (pos s) in
    ret (block_slipperiness E (Qfloor (Vector3.x block_pos))
                              (Qfloor (Vector3.y block_pos) - 1)%Z
                              (Qfloor (Vector3.z block_pos)))
  else ret 1.

Definition apply_accel (E : Env) : M unit :=
  s <- get;;
  dir <- deref (direction (pc s));;
  if negb (Vector3.truthy dir) then ret tt
  else
    accel <- (if on_ground (pos s) then
                block_slip <- get_block_slip E;;
                if Qeq_bool (block_slip ^ 3) 0 then raise ZeroDivisionError
                else ret (move_accel (pc s) * (BASE_GND_SLIP (const E) ^ 3 / block_slip ^ 3))
              else ret (PHY_JMP_ACC (const E)));;
    dir_norm <- lift (norm E dir);;
    modify (fun s => set_vec (Vector3.add (vec s) (Vector3.mul dir_norm accel)) s).

Definition apply_vector (mtv : Vector3) : M unit :=
  modify (fun s => set_pos {| coords := Vector3.add (coords (pos s)) (Vector3.add (vec s) mtv);
                              on_ground := on_ground (pos s) |} s);;
  modify (fun s => set_vec (Vector3.set_x (vec s)
                      (if Vector3.nonzero (Vector3.x mtv) then 0 else Vector3.x (vec s))) s);;
  modify (fun s => set_vec (Vector3.set_y (vec s)
                      (if Vector3.nonzero (Vector3.y mtv) then 0 else Vector3.y (vec s))) s);;
  modify (fun s => set_vec (Vector3.set_z (vec s)
                      (if Vector3.nonzero (Vector3.z mtv) then 0 else Vector3.z (vec s))) s).

Definition apply_drag (E : Env) : M unit :=
  modify (fun s => set_vec (Vector3.set_y (vec s) (Vector3.y (vec s) * PHY_BASE_DRG (const E))) s);;
  block_slip <- get_block_slip E;;
  let hoz_drag := block_slip * PHY_DRG_MUL (const E) in
  modify (fun s => set_vec (Vector3.set_x (vec s) (Vector3.x (vec s) * hoz_drag)) s);;
  modify (fun s => set_vec (Vector3.set_z (vec s) (Vector3.z (vec s) * hoz_drag)) s).

(** [pos] of [get_mtv]: the attempted position, moved to the corner of the
    bounding box. *)
Definition attempted_position (E : Env) (s : State) : Vector3 :=
  let p := Vector3.add (coords (pos s)) (vec s) in
  Vector3.new (Vector3.x p - w (bounding_box E) / 2) (Vector3.y p)
              (Vector3.z p - d (bounding_box E) / 2).

Definition mtv_warning : string := "Physics failed to generate an MTV, bailing out".

Definition get_mtv (E : Env) (fuel : nat) : M Vector3 :=
  s <- get;;
  let pos := attempted_position E s in
  match search E pos (vec s) fuel entry with
  | None => out_of_fuel
  | Some Else =>
      warn mtv_warning;;
      modify (set_vec Vector3.zero);;
      ret Vector3.zero
  | Some (Break current_vector q1) =>
      ret (min_possible E pos current_vector q1)
  end.

(** [tick] returns [self.pause_physics] ([True]) when paused and [None]
    otherwise; [fuel] bounds the search of this tick. *)
Definition tick (E : Env) (fuel : nat) : M (option bool) :=
  s <- get;;
  if pause_physics s then ret (Some (pause_physics s))
  else
    modify (fun s => set_vec (Vector3.mul (vec s) (PHY_BASE_DRG (const E))) s);;
    apply_accel E;;
    mtv <- get_mtv E fuel;;
    apply_vector mtv;;
    modify (fun s => set_pos {| coords := coords (pos s);
                                on_ground := negb (Qle_bool (Vector3.y mtv) 0) |} s);;
    modify (fun s => set_vec (Vector3.sub (vec s) (Vector3.new 0 (PHY_GAV_ACC (const E)) 0)) s);;
    apply_drag E;;
    l <- alloc Vector3.zero;;
    modify (fun s => set_pc (set_direction l (pc s)) s);;
    ret None.

(** [PhysicsPlugin.__init__]: the plugin's state right after construction,
    over the store [m] of the vectors that exist already. *)
Definition PhysicsPlugin_init (position : Position) (ab : Abilities)
    (m : gmap loc Vector3) : State :=
  let dir := fresh (dom m) in
  {| pos := position; vec := Vector3.zero; pause_physics := false;
     pc := PhysicsCore_init dir Vector3.zero ab;
     heap := <[dir := Vector3.zero]> m; log := [] |}.

(** Unfolding of the computations above, for the proofs. *)
Ltac step_monad :=
  unfold bind, get, modify, ret, raise, lift, getattr_vec, setattr_vec, deref, store_y,
    alloc, warn; simpl.

(** ** Calls from outside

    The calls the event loop and other plugins make on the helper, and the
    state a sequence of them leaves.  A call that raises leaves the state
    it had reached; [Tick] carries the fuel of its search. *)

Inductive call : Type :=
| Tick (fuel : nat)
| StopPhysics
| StartPhysics
| Jump
| Walk
| Sprint
| MoveTarget (vector : loc)
| MoveVector (vector : loc).

Definition perform (E : Env) (c : call) (s : State) : option State :=
  match c with
  | Tick fuel => state_of (tick E fuel s)
  | StopPhysics => state_of (stop_physics s)
  | StartPhysics => state_of (start_physics s)
  | Jump => state_of (jump E s)
  | Walk => state_of (walk s)
  | Sprint => state_of (sprint E s)
  | MoveTarget vector => state_of (move_target vector s)
  | MoveVector vector => state_of (move_vector vector s)
  end.

Fixpoint run (E : Env) (cs : list call) (s : State) : option State :=
  match cs with
  | [] => Some s
  | c :: cs' =>
      match perform E c s with
      | Some s' => run E cs' s'
      | None => None
      end
  end.

Definition is_start (c : call) : bool :=
  match c with StartPhysics => true | _ => false end.

(** ** Properties of the state

    A property of the state that a computation keeps, whether it returns
    or raises. *)
Definition preserves {A} (P : State -> Prop) (m : M A) : Prop :=
  forall s, P s -> forall s', state_of (m s) = Some s' -> P s'.

(** [self.vec] of the core, unbound. *)
Definition vec_unbound (s : State) : Prop := vec_attr (pc s) = None.

(** ** Measures for the search *)

(** The number of nodes of the full tree of branching [b] and depth [r]. *)
Fixpoint tree_size (b r : nat) : nat :=
  match r with
  | O => 1
  | S r' => 1 + b * tree_size b r'
  end.

(** The candidates in a deque, each counted with the tree it can unfold
    into when [rank] bounds the depth below a candidate. *)
Fixpoint weight (b : nat) (rank : Vector3 -> nat) (q : list Vector3) : nat :=
  match q with
  | [] => 0
  | c :: q' => tree_size b (rank c) + weight b rank q'
  end.

(** The speed bound of the search, for a candidate [c] and the velocity
    [vec] the search started with. *)
Definition speed_bound (vec c : Vector3) : Prop :=
  Vector3.dist_sq (Vector3.add vec c) <= Vector3.dist_sq vec + FP_MAGIC.

(** A vector whose every component is zero. *)
Definition is_zero (v : Vector3) : Prop :=
  Vector3.x v == 0 /\ Vector3.y v == 0 /\ Vector3.z v == 0.

(** ** Sample collaborators and states

    Concrete environments on which the statements below are exercised.  The
    constants are sample values; the collision primitives are stubs. *)

Definition sample_constants : Constants :=
  {| PHY_BASE_DRG := 98 # 100; PHY_DRG_MUL := 91 # 100; PHY_GAV_ACC := 8 # 100;
     PHY_JMP_ABS := 42 # 100; PHY_JMP_ACC := 2 # 100; PHY_JMP_MUL := 2 # 10;
     PHY_SPR_MUL := 13 # 10; BASE_GND_SLIP := 6 # 10 |}.

Definition player_box : BoundingBox := {| w := 6 # 10; d := 6 # 10; h := 18 # 10 |}.

Definition up : Vector3 := Vector3.new 0 1 0.
Definition down : Vector3 := Vector3.new 0 (-1) 0.

(** An environment around a collision stub; its [norm] always raises. *)
Definition stub_env (col : Vector3 -> Vector3 -> list Vector3) : Env :=
  {| const := sample_constants; bounding_box := player_box;
     check_collision := col;
     block_slipperiness := fun _ _ _ => 6 # 10;
     norm := fun _ => inl ZeroDivisionError |}.

(** Open air: nothing is ever suggested. *)
Definition open_air : Env := stub_env (fun _ _ => []).

(** Boxed in: the zero vector is the only entry, at every candidate. *)
Definition boxed_in : Env := stub_env (fun _ _ => [Vector3.zero]).

(** Two suggestions that undo each other: up from level zero, down from
    anywhere else. *)
Definition see_saw : Env :=
  stub_env (fun _ c => if Qeq_bool (Vector3.y c) 0 then [up] else [down]).

(** One suggestion at level zero, nothing anywhere else. *)
Definition ledge : Env :=
  stub_env (fun _ c => if Qeq_bool (Vector3.y c) 0 then [up] else []).

(** A floor one unit above the attempted position: up from level zero, and
    a zero entry anywhere else. *)
Definition floor_below : Env :=
  stub_env (fun _ c => if Qeq_bool (Vector3.y c) 0 then [up] else [Vector3.zero]).

(** The rank of a candidate over the floor: one at level zero, zero
    elsewhere. *)
Definition floor_rank (c : Vector3) : nat :=
  if Qeq_bool (Vector3.y c) 0 then 1%nat else 0%nat.

(** Two ways up from level zero, a whole step and half a step, and a zero
    entry anywhere else. *)
Definition half_up : Vector3 := Vector3.new 0 (1 # 2) 0.
Definition two_steps : Env :=
  stub_env (fun _ c => if Qeq_bool (Vector3.y c) 0 then [up; half_up] else [Vector3.zero]).

(** A wall: one sideways suggestion, at every candidate. *)
Definition wall : Env := stub_env (fun _ _ => [Vector3.new 1 0 0]).

(** A falling body: at (0, 10, 0) with velocity (0, -1, 0), airborne. *)
Definition falling : State :=
  set_vec down (PhysicsPlugin_init {| coords := Vector3.new 0 10 0; on_ground := false |}
                                   {| walking_speed := 1 # 10 |} ∅).

(** The falling body, with a vector (3, 4, 5) that a caller holds by the
    reference [target]. *)
Definition target : loc := 7%positive.
Definition with_target : State :=
  set_heap (<[target := Vector3.new 3 4 5]> (heap falling)) falling.

(** A body standing still on the ground. *)
Definition standing : State :=
  PhysicsPlugin_init {| coords := Vector3.new 0 10 0; on_ground := true |}
                     {| walking_speed := 1 # 10 |} ∅.

(** ** Parts of a tick

    Names for the states a tick passes through, used to state how the
    steps of [tick] compose. *)

(** The state after the first line of an unpaused tick,
    [self.vec *= const.PHY_BASE_DRG]. *)
Definition dragged (E : Env) (s : State) : State :=
  set_vec (Vector3.mul (vec s) (PHY_BASE_DRG (const E))) s.

(** The state [get_mtv] leaves on its failure path. *)
Definition bailed_out (s : State) : State :=
  set_vec Vector3.zero (set_log (log s ++ [mtv_warning]) s).

(** The value of [self.pc.direction]. *)
Definition intent (s : State) : Vector3 := heap s !!! direction (pc s).

(** The lines of [tick] after [mtv = self.get_mtv()]. *)
Definition finish_tick (E : Env) (mtv : Vector3) : M (option bool) :=
  apply_vector mtv;;
  modify (fun s => set_pos {| coords := coords (pos s);
                              on_ground := negb (Qle_bool (Vector3.y mtv) 0) |} s);;
  modify (fun s => set_vec (Vector3.sub (vec s) (Vector3.new 0 (PHY_GAV_ACC (const E)) 0)) s);;
  apply_drag E;;
  l <- alloc Vector3.zero;;
  modify (fun s => set_pc (set_direction l (pc s)) s);;
  ret None.

(** The velocity after [apply_vector]: an axis along which the correction
    is not zero is stopped. *)
Definition blocked (mtv v : Vector3) : Vector3 :=
  Vector3.new (if Vector3.nonzero (Vector3.x mtv) then 0 else Vector3.x v)
              (if Vector3.nonzero (Vector3.y mtv) then 0 else Vector3.y v)
              (if Vector3.nonzero (Vector3.z mtv) then 0 else Vector3.z v).

(** The slipperiness [apply_drag] reads once the body has been moved to
    [p]: the block under [p] on the ground, 1 in the air. *)
Definition slip_at (E : Env) (p : Position) : Q :=
  if on_ground p then
    block_slipperiness E (Qfloor (Vector3.x (coords p)))
                         (Qfloor (Vector3.y (coords p)) - 1)%Z
                         (Qfloor (Vector3.z (coords p)))
  else 1.

(** The state at the end of a tick, in closed form, from the correction
    [mtv] and the state [s] in which [get_mtv] returned it. *)
Definition moved (E : Env) (mtv : Vector3) (s : State) : State :=
  let p := {| coords := Vector3.add (coords (pos s)) (Vector3.add (vec s) mtv);
              on_ground := negb (Qle_bool (Vector3.y mtv) 0) |} in
  let v := Vector3.sub (blocked mtv (vec s)) (Vector3.new 0 (PHY_GAV_ACC (const E)) 0) in
  let hoz_drag := slip_at E p * PHY_DRG_MUL (const E) in
  let l := fresh (dom (heap s)) in
  {| pos := p;
     vec := Vector3.new (Vector3.x v * hoz_drag)
                        (Vector3.y v * PHY_BASE_DRG (const E))
                        (Vector3.z v * hoz_drag);
     pause_physics := pause_physics s;
     pc := set_direction l (pc s);
     heap := <[l := Vector3.zero]> (heap s);
     log := log s |}.

(** A world of zero slipperiness, around a collision stub; its [norm]
    always raises. *)
Definition frictionless (col : Vector3 -> Vector3 -> list Vector3) : Env :=
  {| const := sample_constants; bounding_box := player_box;
     check_collision := col;
     block_slipperiness := fun _ _ _ => 0;
     norm := fun _ => inl ZeroDivisionError |}.

(** A world of base slipperiness whose [norm] hands its argument back. *)
Definition plain_ground : Env :=
  {| const := sample_constants; bounding_box := player_box;
     check_collision := fun _ _ => [Vector3.zero];
     block_slipperiness := fun _ _ _ => 6 # 10;
     norm := fun v => inr v |}.

(** The standing body with the intent (1, 0, 0), handed over by
    [move_vector] through the reference [target]. *)
Definition walking : State :=
  match move_vector target (set_heap (<[target := Vector3.new 1 0 0]> (heap standing)) standing) with
  | Ok _ s => s
  | _ => standing
  end.

(** What the steps before [apply_vector] leave alone: everything but the
    velocity and the log. *)
Definition same_frame (s0 s : State) : Prop :=
  pos s = pos s0 /\ pause_physics s = pause_physics s0 /\ pc s = pc s0 /\ heap s = heap s0.

(** The state a run of calls leaves, for runs that have one. *)
Definition after (E : Env) (cs : list call) (s : State) : State :=
  match run E cs s with
  | Some s' => s'
  | None => s
  end.

(** ** The search in binary64

    The rationals above idealise Python's floats.  Where a property of the
    search depends on how sums are rounded, the search is read again over
    IEEE 754 binary64 numbers, the floats of Python: the same loops, with
    the vector arithmetic of [Vector3] carried out in doubles. *)

Module Double.

Import PrimFloat.
Local Open Scope float_scope.

(** Modelled from the spec: [spock.vector.Vector3] over doubles. *)
Record t : Type := new { x : float; y : float; z : float }.

(** [Vector3()] *)
Definition zero : t := new 0 0 0.

(** [a + b] *)
Definition add (a b : t) : t := new (x a + x b) (y a + y b) (z a + z b).

(** [a.dist_sq()] *)
Definition dist_sq (a : t) : float := x a * x a + y a * y a + z a * z a.

(** [bool(k)]: false at zero (of either sign) only. *)
Definition nonzero (k : float) : bool := negb (k =? 0).

(** Modelled from the spec: the truth value of a vector. *)
Definition truthy (a : t) : bool := nonzero (x a) || nonzero (y a) || nonzero (z a).

(** Modelled from the spec: [a < b], "ordering by magnitude". *)
Definition lt (a b : t) : bool := dist_sq a <? dist_sq b.

(** [FP_MAGIC = 1e-4], the double nearest to it. *)
Definition FP_MAGIC : float := 0x1.a36e2eb1c432dp-14.

Definition py_all (xs : list t) : bool := forallb truthy xs.

Fixpoint py_min (best : t) (rest : list t) : t :=
  match rest with
  | [] => best
  | item :: rest' => py_min (if lt item best then item else best) rest'
  end.

Record frame : Type := Frame { q : list t; transform_vectors : list t }.

(** [transform_vectors = []; q = collections.deque()] *)
Definition entry : frame := Frame [] [].

(** [while q or not transform_vectors] *)
Definition while_cond (f : frame) : bool :=
  match q f, transform_vectors f with
  | [], _ :: _ => false
  | _, _ => true
  end.

(** [q.popleft() if q else Vector3()] and what is left of the deque. *)
Definition popleft (f : frame) : t * list t :=
  match q f with
  | c :: q' => (c, q')
  | [] => (zero, [])
  end.

(** [test_vec.dist_sq() <= self.vec.dist_sq() + FP_MAGIC] with
    [test_vec = self.vec + current_vector + vector]. *)
Definition within_cap (vec current_vector vector : t) : bool :=
  dist_sq (add (add vec current_vector) vector) <=? dist_sq vec + FP_MAGIC.

(** The [for] loop: the candidates appended to [q], in order. *)
Fixpoint appended (vec current_vector : t) (tvs : list t) : list t :=
  match tvs with
  | [] => []
  | vector :: tvs' =>
      if within_cap vec current_vector vector
      then add current_vector vector :: appended vec current_vector tvs'
      else appended vec current_vector tvs'
  end.

Inductive body_result : Type :=
| Next (f : frame)
| Broke (current_vector : t) (q : list t).

Inductive search_exit : Type :=
| Break (current_vector : t) (q : list t)
| Else.

Section Search.

(** [self.col.check_collision], [pos] of [get_mtv] and [self.vec] *)
Variable check_collision : t -> t -> list t.
Variables (pos vec : t).

Definition body (f : frame) : body_result :=
  let '(current_vector, q1) := popleft f in
  let tvs := check_collision pos current_vector in
  if negb (py_all tvs) then Broke current_vector q1
  else Next (Frame (q1 ++ appended vec current_vector tvs) tvs).

Fixpoint search (fuel : nat) (f : frame) : option search_exit :=
  if while_cond f then
    match fuel with
    | O => None
    | S fuel' =>
        match body f with
        | Broke c q1 => Some (Break c q1)
        | Next f' => search fuel' f'
        end
    end
  else Some Else.

Fixpoint iterate (n : nat) (f : frame) : option frame :=
  match n with
  | O => Some f
  | S n' =>
      if while_cond f then
        match body f with
        | Next f' => iterate n' f'
        | Broke _ _ => None
        end
      else None
  end.

Fixpoint drain (q : list t) (possible_mtv : list t) : list t :=
  match q with
  | [] => possible_mtv
  | current_vector :: q' =>
      if negb (py_all (check_collision pos current_vector))
      then drain q' (possible_mtv ++ [current_vector])
      else drain q' possible_mtv
  end.

Definition min_possible (current_vector : t) (q : list t) : t :=
  match drain q [current_vector] with
  | [] => current_vector
  | best :: rest => py_min best rest
  end.

(** What [get_mtv] returns, with [true] when it comes from the [else] of
    the first loop (warning logged, velocity zeroed); [None] when [fuel]
    runs of the body did not end the loop. *)
Definition get_mtv (fuel : nat) : option (t * bool) :=
  match search fuel entry with
  | None => None
  | Some Else => Some (zero, true)
  | Some (Break current_vector q1) => Some (min_possible current_vector q1, false)
  end.

(** A candidate that was appended: the sum of a tested candidate and of one
    of its suggestions, for which the test of the cap, on the sum the code
    tests and as doubles compute it, held. *)
Definition passed_cap_test (c : t) : Prop :=
  exists current_vector vector,
    In vector (check_collision pos current_vector)
    /\ c = add current_vector vector
    /\ (dist_sq (add (add vec current_vector) vector) <=? dist_sq vec + FP_MAGIC) = true.

End Search.

(** A slope: the velocity (-0.55, -0.9, 1.5), a suggestion of 1.7 up at
    level zero, of 0.10005555384098387 up at level 1.7, and a zero entry
    anywhere else. *)
Definition slope_vec : t :=
  new (-0x1.199999999999ap-1) (-0x1.ccccccccccccdp-1) 0x1.8p+0.
Definition slope_first : t := new 0 0x1.b333333333333p+0 0.
Definition slope_second : t := new 0 0x1.99d3da387bab9p-4 0.
Definition slope (_ current_vector : t) : list t :=
  if y current_vector =? 0 then [slope_first]
  else if y current_vector =? 0x1.b333333333333p+0 then [slope_second]
  else [zero].

(** The sum of the two suggestions, as doubles add them:
    (0, 1.800055553840984, 0). *)
Definition slope_queued : t := new 0 0x1.ccd070d6baedfp+0 0.

End Double.

(** The falling body after [move_vector] on the vector a caller holds by
    [target]: that vector, now (3, 0, 5), is the intent. *)
Definition aimed : State :=
  match move_vector target with_target with
  | Ok _ s => s
  | _ => with_target
  end.

(** * Properties *)

(** ** The first loop *)

Section SearchFacts.

Variable E : Env.
Variables (pos vec : Vector3).

Lemma while_cond_cons c q' tvs : while_cond (Frame (c :: q') tvs) = true.
Proof. reflexivity. Qed.

Lemma while_cond_false f :
  while_cond f = false <-> q f = [] /\ transform_vectors f <> [].
Proof.
  destruct f as [[|c q'] [|t tvs]]; simpl; unfold while_cond; simpl;
    split; try discriminate; try (intros [? ?]; congruence); intros _; split; congruence.
Qed.

(** A candidate whose result holds a falsy entry leaves the loop through
    [break], and the deque is what it was after the pop. *)
Lemma body_accepted f :
  accepted E pos (fst (popleft f)) = true ->
  body E pos vec f = Broke (fst (popleft f)) (snd (popleft f)).
Proof.
  unfold body, accepted. destruct (popleft f) as [c q1]; simpl.
  intros ->. reflexivity.
Qed.

Lemma body_rejected f :
  accepted E pos (fst (popleft f)) = false ->
  body E pos vec f =
    Next (Frame (snd (popleft f)
                   ++ appended vec (fst (popleft f)) (check_collision E pos (fst (popleft f))))
                (check_collision E pos (fst (popleft f)))).
Proof.
  unfold body, accepted. destruct (popleft f) as [c q1]; simpl.
  intros ->. reflexivity.
Qed.

Lemma search_accepted f fuel :
  while_cond f = true ->
  accepted E pos (fst (popleft f)) = true ->
  search E pos vec (S fuel) f = Some (Break (fst (popleft f)) (snd (popleft f))).
Proof.
  intros Hc Ha. simpl. rewrite Hc, (body_accepted _ Ha). reflexivity.
Qed.

(** Fuel spent on runs of the body that stay in the loop. *)
Lemma search_iterate n : forall f f' k,
  iterate E pos vec n f = Some f' ->
  search E pos vec (n + k) f = search E pos vec k f'.
Proof.
  induction n as [|n IH]; intros f f' k H; simpl in *.
  - congruence.
  - destruct (while_cond f); [|discriminate].
    destruct (body E pos vec f) as [f1|]; [|discriminate].
    apply IH, H.
Qed.

Lemma search_else f fuel :
  q f = [] -> transform_vectors f <> [] -> search E pos vec fuel f = Some Else.
Proof.
  intros Hq Ht. assert (Hc : while_cond f = false) by (apply while_cond_false; tauto).
  destruct fuel; simpl; rewrite Hc; reflexivity.
Qed.

(** A set of frames that the body never leaves keeps the loop running,
    whatever the fuel. *)
Lemma search_trapped (P : frame -> Prop) :
  (forall f, P f -> while_cond f = true /\ exists f', body E pos vec f = Next f' /\ P f') ->
  forall fuel f, P f -> search E pos vec fuel f = None.
Proof.
  intros Htrap. induction fuel as [|fuel IH]; intros f Hf;
    destruct (Htrap f Hf) as [Hc [f' [Hb Hf']]]; simpl; rewrite Hc.
  - reflexivity.
  - rewrite Hb. apply IH, Hf'.
Qed.

(** More fuel changes no answer. *)
Lemma search_more_fuel fuel : forall f e k,
  search E pos vec fuel f = Some e -> search E pos vec (fuel + k) f = Some e.
Proof.
  induction fuel as [|fuel IH]; intros f e k; simpl.
  - destruct (while_cond f) eqn:Hc; [discriminate|].
    intros H. destruct k; simpl; rewrite Hc; exact H.
  - destruct (while_cond f); [|auto].
    destruct (body E pos vec f); [apply IH|auto].
Qed.

End SearchFacts.

(** ** [get_mtv], by the way the first loop ends *)

Lemma get_mtv_break E fuel s c q1 :
  search E (attempted_position E s) (vec s) fuel entry = Some (Break c q1) ->
  get_mtv E fuel s = Ok (min_possible E (attempted_position E s) c q1) s.
Proof. intros H. unfold get_mtv, bind, get. rewrite H. reflexivity. Qed.

Lemma get_mtv_else E fuel s :
  search E (attempted_position E s) (vec s) fuel entry = Some Else ->
  get_mtv E fuel s =
    Ok Vector3.zero (set_vec Vector3.zero (set_log (log s ++ [mtv_warning]) s)).
Proof. intros H. unfold get_mtv, bind, get. rewrite H. reflexivity. Qed.

Lemma get_mtv_out_of_fuel E fuel s :
  search E (attempted_position E s) (vec s) fuel entry = None ->
  get_mtv E fuel s = OutOfFuel.
Proof. intros H. unfold get_mtv, bind, get. rewrite H. reflexivity. Qed.

(** ** Truth values *)

Lemma nonzero_false k : Vector3.nonzero k = false <-> k == 0.
Proof.
  unfold Vector3.nonzero. rewrite negb_false_iff. apply Qeq_bool_iff.
Qed.

Lemma truthy_false v : Vector3.truthy v = false <-> is_zero v.
Proof.
  unfold Vector3.truthy, is_zero.
  rewrite !orb_false_iff, !nonzero_false. tauto.
Qed.

(** [not all(xs)] holds exactly when some entry is the zero vector; the
    empty result has none. *)
Lemma py_all_false xs :
  py_all xs = false <-> exists v, In v xs /\ is_zero v.
Proof.
  unfold py_all. induction xs as [|a xs IH]; simpl.
  - split; [discriminate | intros [v [[] _]]].
  - rewrite andb_false_iff, IH, truthy_false. split.
    + intros [Ha | [v [Hin Hz]]]; eauto.
    + intros [v [[<- | Hin] Hz]]; eauto.
Qed.

Lemma accepted_true E pos c :
  accepted E pos c = true <-> exists v, In v (check_collision E pos c) /\ is_zero v.
Proof. unfold accepted. rewrite negb_true_iff. apply py_all_false. Qed.

Lemma accepted_empty E pos c :
  check_collision E pos c = [] -> accepted E pos c = false.
Proof. unfold accepted. intros ->. reflexivity. Qed.

Lemma min_possible_alone E pos c : min_possible E pos c [] = c.
Proof. reflexivity. Qed.

(** The zero vector, accepted at the first pop, is what the resolver
    returns, and the state is left alone. *)
Lemma get_mtv_first_pop E s fuel :
  accepted E (attempted_position E s) Vector3.zero = true ->
  get_mtv E (S fuel) s = Ok Vector3.zero s.
Proof.
  intros Ha.
  rewrite (get_mtv_break E (S fuel) s Vector3.zero []); [reflexivity|].
  apply (search_accepted E _ (vec s) entry fuel); [reflexivity | exact Ha].
Qed.

(** C1 (amended).  A popped candidate is accepted when the result of the
    collision primitive at it holds a zero-vector entry: the first loop
    stops at that moment with the candidate and the rest of the deque.  In
    particular, when the result at the zero vector holds such an entry, the
    resolver returns the zero vector after the first pop and leaves the
    velocity, and the whole state, as it was. *)
Theorem zero_entry_accepts_candidate E s f v fuel :
  while_cond f = true ->
  In v (check_collision E (attempted_position E s) (fst (popleft f))) ->
  is_zero v ->
  search E (attempted_position E s) (vec s) (S fuel) f
    = Some (Break (fst (popleft f)) (snd (popleft f)))
  /\ (f = entry -> get_mtv E (S fuel) s = Ok Vector3.zero s).
Proof.
  intros Hc Hin Hz.
  assert (Ha : accepted E (attempted_position E s) (fst (popleft f)) = true)
    by (apply accepted_true; eauto).
  split; [exact (search_accepted E _ (vec s) f fuel Hc Ha)|].
  intros ->. apply get_mtv_first_pop. exact Ha.
Qed.

Lemma zero_entry_accepts_candidate_witness :
  search boxed_in (attempted_position boxed_in falling) (vec falling) 1 entry
    = Some (Break Vector3.zero [])
  /\ get_mtv boxed_in 1 falling = Ok Vector3.zero falling.
Proof.
  destruct (zero_entry_accepts_candidate boxed_in falling entry Vector3.zero 0)
    as [Hs Hg].
  - reflexivity.
  - left. reflexivity.
  - repeat split; reflexivity.
  - split; [exact Hs | exact (Hg eq_refl)].
Defined.

(** C1, as stated, fails in open air: the empty result at the first pop
    neither stops the loop nor returns the zero vector; the loop is back at
    its entry, and no amount of running makes the resolver return. *)
Lemma open_air_never_returns :
  body open_air (attempted_position open_air falling) (vec falling) entry = Next entry
  /\ forall fuel, get_mtv open_air fuel falling = OutOfFuel.
Proof.
  split; [reflexivity|].
  intros fuel. apply get_mtv_out_of_fuel.
  apply (search_trapped open_air _ _ (fun f => f = entry)); [|reflexivity].
  intros f ->. split; [reflexivity|]. exists entry. split; reflexivity.
Qed.

(** C3 (amended).  A result that is non-empty and holds zero vectors only,
    returned at the first candidate, puts the search on its successful
    path: the zero vector is returned and the state is untouched, so the
    velocity is kept and nothing is logged.  A candidate whose result holds
    a zero-vector entry is the accepted candidate: the loop is left through
    [break] before anything is appended to the deque. *)
Theorem zero_entries_resolve E s :
  (forall fuel,
      check_collision E (attempted_position E s) Vector3.zero <> [] ->
      Forall is_zero (check_collision E (attempted_position E s) Vector3.zero) ->
      get_mtv E (S fuel) s = Ok Vector3.zero s)
  /\ (forall f v,
      In v (check_collision E (attempted_position E s) (fst (popleft f))) ->
      is_zero v ->
      body E (attempted_position E s) (vec s) f
        = Broke (fst (popleft f)) (snd (popleft f))).
Proof.
  split.
  - intros fuel Hne Hall.
    apply get_mtv_first_pop, accepted_true.
    destruct (check_collision E (attempted_position E s) Vector3.zero)
      as [|v tvs]; [congruence|].
    exists v. split; [left; reflexivity | inversion Hall; assumption].
  - intros f v Hin Hz. apply body_accepted, accepted_true. eauto.
Qed.

Lemma zero_entries_resolve_witness :
  get_mtv boxed_in 1 falling = Ok Vector3.zero falling
  /\ body boxed_in (attempted_position boxed_in falling) (vec falling) entry
       = Broke Vector3.zero [].
Proof.
  destruct (zero_entries_resolve boxed_in falling) as [Hg Hb]. split.
  - apply Hg.
    + discriminate.
    + repeat constructor.
  - apply (Hb entry Vector3.zero).
    + left. reflexivity.
    + repeat split; reflexivity.
Defined.

(** C3, as stated, fails for the body that is boxed in: the search leaves
    its loop through [break] at the first candidate, not through the
    [else] of the loop, and returns with the velocity still (0, -1, 0) and
    with an empty log. *)
Lemma boxed_in_keeps_velocity :
  search boxed_in (attempted_position boxed_in falling) (vec falling) 1 entry
    = Some (Break Vector3.zero [])
  /\ get_mtv boxed_in 1 falling = Ok Vector3.zero falling
  /\ vec falling = down
  /\ log falling = [].
Proof. repeat split; reflexivity. Qed.

(** C4 (amended).  Whenever the deque is empty after a run of the body
    whose result was not empty, no candidate having been accepted, the
    search fails safely: it returns, raising nothing; what it returns is
    the zero correction; the velocity is the zero vector; the warning is
    the one new entry of the log; nothing else of the state changes. *)
Theorem exhausted_queue_fails_safe E s n f k :
  iterate E (attempted_position E s) (vec s) n entry = Some f ->
  q f = [] ->
  transform_vectors f <> [] ->
  get_mtv E (n + k) s
    = Ok Vector3.zero (set_vec Vector3.zero (set_log (log s ++ [mtv_warning]) s)).
Proof.
  intros Hit Hq Ht. apply get_mtv_else.
  rewrite (search_iterate _ _ _ _ _ _ k Hit). apply search_else; assumption.
Qed.

Lemma exhausted_queue_fails_safe_witness :
  iterate wall (attempted_position wall falling) (vec falling) 1 entry
    = Some (Frame [] [Vector3.new 1 0 0])
  /\ get_mtv wall 1 falling
     = Ok Vector3.zero (set_vec Vector3.zero (set_log [mtv_warning] falling)).
Proof.
  split; [reflexivity|].
  apply (exhausted_queue_fails_safe wall falling 1 (Frame [] [Vector3.new 1 0 0]) 0).
  - reflexivity.
  - reflexivity.
  - discriminate.
Defined.

(** The frames the search on the ledge moves between. *)
Lemma ledge_trapped fuel :
  search ledge (attempted_position ledge falling) (vec falling) fuel entry = None.
Proof.
  apply (search_trapped ledge _ _ (fun f => f = entry \/ f = Frame [up] [up]));
    [|left; reflexivity].
  intros f [-> | ->]; (split; [reflexivity|]).
  - exists (Frame [up] [up]). split; [reflexivity | right; reflexivity].
  - exists entry. split; [reflexivity | left; reflexivity].
Qed.

(** C4, as stated, fails on the ledge: after two runs of the body the
    deque is empty and no candidate has been accepted, yet the search does
    not fail: the last result was empty, the loop goes back to the zero
    vector, and the resolver never returns. *)
Lemma ledge_exhausted_without_failing :
  iterate ledge (attempted_position ledge falling) (vec falling) 2 entry
    = Some (Frame [] [])
  /\ forall fuel, get_mtv ledge fuel falling = OutOfFuel.
Proof.
  split; [reflexivity|].
  intros fuel. apply get_mtv_out_of_fuel, ledge_trapped.
Qed.

(** C2, as stated, fails on the see-saw: every result is a set of one
    non-zero vector and every candidate is within the velocity cap, yet
    the loop runs for ever between two frames. *)
Lemma see_saw_never_terminates :
  iterate see_saw (attempted_position see_saw falling) (vec falling) 3 entry
    = Some (Frame [up] [up])
  /\ forall fuel,
       search see_saw (attempted_position see_saw falling) (vec falling) fuel entry = None
       /\ get_mtv see_saw fuel falling = OutOfFuel.
Proof.
  split; [reflexivity|].
  assert (H : forall fuel,
    search see_saw (attempted_position see_saw falling) (vec falling) fuel entry = None).
  { intros fuel. apply (search_trapped see_saw _ _
      (fun f => f = entry \/ f = Frame [up] [up] \/ f = Frame [Vector3.zero] [down]));
      [|left; reflexivity].
    intros f [-> | [-> | ->]]; (split; [reflexivity|]).
    - exists (Frame [up] [up]). split; [reflexivity | right; left; reflexivity].
    - exists (Frame [Vector3.zero] [down]). split; [reflexivity | right; right; reflexivity].
    - exists (Frame [up] [up]). split; [reflexivity | right; left; reflexivity]. }
  intros fuel. split; [apply H | apply get_mtv_out_of_fuel, H].
Qed.

(** ** Termination of the first loop on ranked geometry

    Nothing in the search remembers the candidates it has tested, and the
    velocity cap bounds the size of a candidate, not how many there are.
    The loop ends when the suggestions cannot be followed for ever: here,
    when every admitted candidate is lower in some rank than the candidate
    it was derived from. *)

Section Termination.

Local Open Scope nat_scope.

Variable E : Env.
Variables (pos vec : Vector3).
Variable rank : Vector3 -> nat.
Variable b : nat.

Hypothesis results_nonempty : forall c, check_collision E pos c <> [].
Hypothesis results_small : forall c, length (check_collision E pos c) <= b.
Hypothesis rank_decreases : forall c v,
  accepted E pos c = false ->
  In v (check_collision E pos c) ->
  within_cap vec c v = true ->
  rank (Vector3.add c v) < rank c.

Lemma tree_size_pos r : 1 <= tree_size b r.
Proof. destruct r; simpl; lia. Qed.

Lemma tree_size_mono r : forall r', r <= r' -> tree_size b r <= tree_size b r'.
Proof.
  induction r as [|r IH]; intros r' Hle.
  - apply tree_size_pos.
  - destruct r' as [|r']; [lia|]. simpl.
    assert (tree_size b r <= tree_size b r') by (apply IH; lia). nia.
Qed.

Lemma weight_app q1 q2 :
  weight b rank (q1 ++ q2) = weight b rank q1 + weight b rank q2.
Proof. induction q1 as [|c q1 IH]; simpl; [reflexivity | rewrite IH; lia]. Qed.

Lemma weight_appended c tvs :
  (forall v, In v tvs -> within_cap vec c v = true -> rank (Vector3.add c v) < rank c) ->
  weight b rank (appended vec c tvs) <= length tvs * tree_size b (pred (rank c))
  /\ (rank c = 0 -> appended vec c tvs = []).
Proof.
  induction tvs as [|v tvs IH]; intros Hdec; simpl.
  - split; [lia | reflexivity].
  - destruct IH as [IHw IH0]; [intros v' Hin; apply Hdec; right; exact Hin|].
    destruct (within_cap vec c v) eqn:Hcap.
    + assert (Hlt : rank (Vector3.add c v) < rank c) by (apply Hdec; [left; reflexivity | exact Hcap]).
      split; [|lia]. simpl.
      assert (tree_size b (rank (Vector3.add c v)) <= tree_size b (pred (rank c)))
        by (apply tree_size_mono; lia).
      lia.
    + split; [|exact IH0].
      pose proof (tree_size_pos (pred (rank c))). nia.
Qed.

Lemma weight_children c :
  accepted E pos c = false ->
  weight b rank (appended vec c (check_collision E pos c)) + 1 <= tree_size b (rank c).
Proof.
  intros Hrej.
  destruct (weight_appended c (check_collision E pos c)) as [Hw H0];
    [intros v Hin Hcap; apply rank_decreases; assumption|].
  pose proof (results_small c) as Hb.
  destruct (rank c) as [|r] eqn:Hr.
  - rewrite H0 by reflexivity. simpl. lia.
  - simpl in *. nia.
Qed.

Lemma search_ranked n : forall f,
  transform_vectors f <> [] ->
  weight b rank (q f) <= n ->
  exists e, search E pos vec n f = Some e.
Proof.
  induction n as [|n IH]; intros [[|c q'] tvs] Ht Hw; simpl in Ht, Hw.
  - exists Else. apply search_else; [reflexivity | exact Ht].
  - pose proof (tree_size_pos (rank c)). lia.
  - exists Else. apply search_else; [reflexivity | exact Ht].
  - simpl. unfold body. simpl.
    destruct (py_all (check_collision E pos c)) eqn:Hall; simpl; [|eauto].
    apply IH; simpl.
    + apply results_nonempty.
    + rewrite weight_app.
      assert (Hrej : accepted E pos c = false) by (unfold accepted; rewrite Hall; reflexivity).
      pose proof (weight_children c Hrej). lia.
Qed.

Lemma search_entry_ranked :
  exists e, search E pos vec (tree_size b (rank Vector3.zero)) entry = Some e.
Proof.
  pose proof (tree_size_pos (rank Vector3.zero)) as Hpos.
  destruct (tree_size b (rank Vector3.zero)) as [|n] eqn:Hn; [lia|].
  simpl. unfold body. simpl.
  destruct (py_all (check_collision E pos Vector3.zero)) eqn:Hall; simpl; [|eauto].
  apply search_ranked; simpl.
  - apply results_nonempty.
  - assert (Hrej : accepted E pos Vector3.zero = false)
      by (unfold accepted; rewrite Hall; reflexivity).
    pose proof (weight_children Vector3.zero Hrej). lia.
Qed.

End Termination.

Lemma get_mtv_returns E fuel s e :
  search E (attempted_position E s) (vec s) fuel entry = Some e ->
  exists mtv s', get_mtv E fuel s = Ok mtv s'.
Proof.
  intros H. destruct e as [c q1|].
  - rewrite (get_mtv_break _ _ _ _ _ H). eauto.
  - rewrite (get_mtv_else _ _ _ H). eauto.
Qed.

(** C2 (amended).  The search ends for a collision primitive whose every
    result is non-empty and has at most [b] entries, and for which every
    candidate admitted under the velocity cap is lower in a rank than the
    candidate it was derived from: the first loop runs its body at most
    [tree_size b (rank zero)] times, and the resolver returns.  (The cap
    alone bounds the size of the queued candidates, not their number.) *)
Theorem search_terminates_on_ranked_geometry E s (rank : Vector3 -> nat) (b : nat) :
  (forall c, check_collision E (attempted_position E s) c <> []) ->
  (forall c, (length (check_collision E (attempted_position E s) c) <= b)%nat) ->
  (forall c v,
      accepted E (attempted_position E s) c = false ->
      In v (check_collision E (attempted_position E s) c) ->
      within_cap (vec s) c v = true ->
      (rank (Vector3.add c v) < rank c)%nat) ->
  (exists e, search E (attempted_position E s) (vec s)
               (tree_size b (rank Vector3.zero)) entry = Some e)
  /\ (exists mtv s', get_mtv E (tree_size b (rank Vector3.zero)) s = Ok mtv s').
Proof.
  intros H1 H2 H3.
  destruct (search_entry_ranked E _ (vec s) rank b H1 H2 H3) as [e He].
  split; [eauto | exact (get_mtv_returns _ _ _ _ He)].
Qed.

Lemma search_terminates_on_ranked_geometry_witness :
  (exists e, search floor_below (attempted_position floor_below falling) (vec falling)
               2 entry = Some e)
  /\ (exists mtv s', get_mtv floor_below 2 falling = Ok mtv s').
Proof.
  apply (search_terminates_on_ranked_geometry floor_below falling floor_rank 1).
  - intros c. simpl. destruct (Qeq_bool (Vector3.y c) 0); discriminate.
  - intros c. simpl. destruct (Qeq_bool (Vector3.y c) 0); simpl; lia.
  - intros c v. unfold accepted, floor_rank. simpl.
    destruct (Qeq_bool (Vector3.y c) 0) eqn:Hy; simpl; [|discriminate].
    intros _ [<- | []] _. simpl.
    apply Qeq_bool_iff in Hy.
    destruct (Qeq_bool (Vector3.y c + 1) 0) eqn:Hy1; [|lia].
    apply Qeq_bool_iff in Hy1. rewrite Hy in Hy1. discriminate.
Defined.

(** ** The velocity cap *)

Lemma dist_sq_add_assoc a b c :
  Vector3.dist_sq (Vector3.add (Vector3.add a b) c)
  == Vector3.dist_sq (Vector3.add a (Vector3.add b c)).
Proof. unfold Vector3.dist_sq, Vector3.add; simpl. ring. Qed.

Lemma within_cap_speed_bound vec c v :
  within_cap vec c v = true -> speed_bound vec (Vector3.add c v).
Proof.
  unfold within_cap, speed_bound. intros H. apply Qle_bool_iff in H.
  rewrite <- dist_sq_add_assoc. exact H.
Qed.

Lemma appended_In vec c tvs c' :
  In c' (appended vec c tvs) ->
  exists v, In v tvs /\ within_cap vec c v = true /\ c' = Vector3.add c v.
Proof.
  induction tvs as [|v tvs IH]; simpl; [intros []|].
  destruct (within_cap vec c v) eqn:Hcap.
  - intros [<- | Hin].
    + exists v. auto.
    + destruct (IH Hin) as [v' [? [? ?]]]. exists v'. auto.
  - intros Hin. destruct (IH Hin) as [v' [? [? ?]]]. exists v'. auto.
Qed.

Lemma popleft_incl f c : In c (snd (popleft f)) -> In c (q f).
Proof. unfold popleft. destruct (q f); simpl; auto. Qed.

(** One run of the body keeps the bound on every queued candidate. *)
Lemma body_keeps_speed_bound E pos vec f f' :
  Forall (speed_bound vec) (q f) ->
  body E pos vec f = Next f' ->
  Forall (speed_bound vec) (q f').
Proof.
  intros Hall. unfold body.
  destruct (popleft f) as [c q1] eqn:Hpop.
  destruct (negb (py_all (check_collision E pos c))); [discriminate|].
  intros [= <-]. simpl. apply List.Forall_forall. intros c' Hin.
  apply in_app_or in Hin. destruct Hin as [Hin | Hin].
  - rewrite List.Forall_forall in Hall. apply Hall, popleft_incl. rewrite Hpop. exact Hin.
  - destruct (appended_In _ _ _ _ Hin) as [v [_ [Hcap ->]]].
    apply within_cap_speed_bound, Hcap.
Qed.

Lemma iterate_keeps_speed_bound E pos vec n : forall f f',
  Forall (speed_bound vec) (q f) ->
  iterate E pos vec n f = Some f' ->
  Forall (speed_bound vec) (q f').
Proof.
  induction n as [|n IH]; intros f f' Hall; simpl.
  - intros [= <-]. exact Hall.
  - destruct (while_cond f); [|discriminate].
    destruct (body E pos vec f) as [f1|] eqn:Hb; [|discriminate].
    apply IH. eapply body_keeps_speed_bound; eassumption.
Qed.

(** In exact arithmetic, where the tested sum and the queued sum are the
    same number, each candidate in the deque satisfies
    |velocity + candidate|^2 <= |velocity|^2 + FP_MAGIC at every point of
    the first loop.  (In doubles the two sums can differ: see the search in
    binary64 below.) *)
Lemma queued_candidates_within_cap E s n f c :
  iterate E (attempted_position E s) (vec s) n entry = Some f ->
  In c (q f) ->
  Vector3.dist_sq (Vector3.add (vec s) c) <= Vector3.dist_sq (vec s) + FP_MAGIC
  /\ FP_MAGIC == 1 / 10000.
Proof.
  intros Hit Hin. split; [|reflexivity].
  assert (Hall : Forall (speed_bound (vec s)) (q f)).
  { eapply iterate_keeps_speed_bound; [|exact Hit]. constructor. }
  rewrite List.Forall_forall in Hall. apply Hall, Hin.
Qed.

Lemma queued_candidates_within_cap_witness :
  Vector3.dist_sq (Vector3.add (vec falling) up) <= Vector3.dist_sq (vec falling) + FP_MAGIC
  /\ FP_MAGIC == 1 / 10000.
Proof.
  apply (queued_candidates_within_cap floor_below falling 1 (Frame [up] [up]) up).
  - reflexivity.
  - left. reflexivity.
Defined.

(** ** The second loop and the minimum *)

Lemma drain_filter E pos q1 : forall possible_mtv,
  drain E pos q1 possible_mtv = possible_mtv ++ List.filter (accepted E pos) q1.
Proof.
  induction q1 as [|c q1 IH]; intros acc; simpl.
  - rewrite app_nil_r. reflexivity.
  - destruct (accepted E pos c); rewrite IH; [rewrite <- app_assoc|]; reflexivity.
Qed.

Lemma min_possible_filter E pos c q1 :
  min_possible E pos c q1 = py_min c (List.filter (accepted E pos) q1).
Proof. unfold min_possible. rewrite drain_filter. reflexivity. Qed.

Lemma lt_true a b : Vector3.lt a b = true <-> Vector3.dist_sq a < Vector3.dist_sq b.
Proof.
  unfold Vector3.lt. rewrite negb_true_iff, <- not_true_iff_false, Qle_bool_iff.
  split; [apply Qnot_le_lt | apply Qlt_not_le].
Qed.

Lemma lt_false a b : Vector3.lt a b = false <-> Vector3.dist_sq b <= Vector3.dist_sq a.
Proof. unfold Vector3.lt. rewrite negb_false_iff. apply Qle_bool_iff. Qed.

Lemma py_min_In rest : forall best, In (py_min best rest) (best :: rest).
Proof.
  induction rest as [|item rest IH]; intros best; simpl; [auto|].
  destruct (IH (if Vector3.lt item best then item else best)) as [H | H].
  - destruct (Vector3.lt item best); rewrite <- H; auto.
  - auto.
Qed.

Lemma py_min_le_best rest : forall best,
  Vector3.dist_sq (py_min best rest) <= Vector3.dist_sq best.
Proof.
  induction rest as [|item rest IH]; intros best; simpl; [apply Qle_refl|].
  eapply Qle_trans; [apply IH|].
  destruct (Vector3.lt item best) eqn:Hlt; [|apply Qle_refl].
  apply Qlt_le_weak, lt_true, Hlt.
Qed.

Lemma py_min_least rest : forall best x,
  In x (best :: rest) -> Vector3.dist_sq (py_min best rest) <= Vector3.dist_sq x.
Proof.
  induction rest as [|item rest IH]; intros best x; simpl.
  - intros [<- | []]. apply Qle_refl.
  - intros [<- | [<- | Hin]].
    + apply (py_min_le_best (item :: rest)).
    + eapply Qle_trans; [apply py_min_le_best|].
      destruct (Vector3.lt item best) eqn:Hlt; [apply Qle_refl | apply lt_false, Hlt].
    + apply IH. right. exact Hin.
Qed.

Lemma py_min_first rest : forall best,
  (forall x, In x rest -> Vector3.dist_sq best <= Vector3.dist_sq x) ->
  py_min best rest = best.
Proof.
  induction rest as [|item rest IH]; intros best Hle; simpl; [reflexivity|].
  assert (Hlt : Vector3.lt item best = false) by (apply lt_false, Hle; left; reflexivity).
  rewrite Hlt. apply IH. intros x Hin. apply Hle. right. exact Hin.
Qed.

(** The drained candidate wins over the first one found when it is the
    smaller of the two. *)
Example two_steps_returns_half_up :
  get_mtv two_steps 2 falling = Ok half_up falling.
Proof. reflexivity. Qed.

(** ** [PhysicsCore.jump] *)

(** What [jump] would do on the ground if [self.vec] were bound: the
    velocity gains the normalised horizontal velocity times
    [PHY_JMP_MUL], and its vertical component becomes [PHY_JMP_ABS]. *)
Lemma jump_with_bound_vec E s v hoz_norm :
  on_ground (pos s) = true ->
  vec_attr (pc s) = Some v ->
  norm E (Vector3.new (Vector3.x v) 0 (Vector3.z v)) = inr hoz_norm ->
  jump E s
    = Ok tt (set_pc (set_vec_attr
               (Vector3.set_y (Vector3.add v (Vector3.mul hoz_norm (PHY_JMP_MUL (const E))))
                              (PHY_JMP_ABS (const E)))
               (pc s)) s).
Proof.
  intros Hg Hv Hn. unfold jump. step_monad. rewrite Hg, Hv, Hn. step_monad.
  rewrite Hv. reflexivity.
Qed.

Lemma jump_airborne E s : on_ground (pos s) = false -> jump E s = Ok tt s.
Proof. intros Hg. unfold jump. step_monad. rewrite Hg. reflexivity. Qed.

Lemma jump_unbound_vec E s :
  on_ground (pos s) = true ->
  vec_attr (pc s) = None ->
  jump E s = Raise (AttributeError "vec") s.
Proof. intros Hg Hv. unfold jump. step_monad. rewrite Hg, Hv. reflexivity. Qed.

(** C7 (the code at the failing input).  On the core that
    [PhysicsPlugin.__init__] builds, [jump] on the ground raises
    [AttributeError] for [vec] and changes nothing: [PhysicsCore.__init__]
    takes [vec] and binds no attribute to it.  In the air [jump] returns
    with the state as it was. *)
Theorem jump_after_init E c ab m :
  jump E (PhysicsPlugin_init {| coords := c; on_ground := true |} ab m)
    = Raise (AttributeError "vec")
            (PhysicsPlugin_init {| coords := c; on_ground := true |} ab m)
  /\ jump E (PhysicsPlugin_init {| coords := c; on_ground := false |} ab m)
    = Ok tt (PhysicsPlugin_init {| coords := c; on_ground := false |} ab m).
Proof.
  split.
  - apply jump_unbound_vec; reflexivity.
  - apply jump_airborne; reflexivity.
Qed.

(** ** [PhysicsPlugin.apply_accel] *)

Lemma apply_accel_zero_direction E s :
  is_zero (heap s !!! direction (pc s)) -> apply_accel E s = Ok tt s.
Proof.
  intros Hz. apply truthy_false in Hz. unfold apply_accel. step_monad.
  rewrite Hz. reflexivity.
Qed.

(** C8.  With the zero vector as intent, [apply_accel] returns at once
    with the state as it was, whatever [Vector3.norm] would do (the
    statement holds for a [norm] that raises on every input): nothing is
    normalised and the velocity is not changed.  The same holds at the
    point of the tick where the step runs, after the first drag. *)
Theorem zero_intent_skips_acceleration E s :
  is_zero (heap s !!! direction (pc s)) ->
  apply_accel E s = Ok tt s
  /\ apply_accel E (set_vec (Vector3.mul (vec s) (PHY_BASE_DRG (const E))) s)
     = Ok tt (set_vec (Vector3.mul (vec s) (PHY_BASE_DRG (const E))) s).
Proof.
  intros Hz. split; apply apply_accel_zero_direction; exact Hz.
Qed.

Lemma zero_intent_skips_acceleration_witness :
  apply_accel open_air falling = Ok tt falling
  /\ apply_accel open_air
       (set_vec (Vector3.mul (vec falling) (PHY_BASE_DRG (const open_air))) falling)
     = Ok tt (set_vec (Vector3.mul (vec falling) (PHY_BASE_DRG (const open_air))) falling).
Proof.
  apply (zero_intent_skips_acceleration open_air falling).
  vm_compute. repeat split; reflexivity.
Defined.

(** ** Paused physics *)

Lemma tick_paused E fuel s :
  pause_physics s = true -> tick E fuel s = Ok (Some true) s.
Proof. intros Hp. unfold tick. step_monad. rewrite Hp. reflexivity. Qed.

(** Every call but [start_physics] returns or raises, and leaves physics
    paused if it was. *)
Lemma perform_keeps_pause E c s :
  is_start c = false ->
  pause_physics s = true ->
  exists s', perform E c s = Some s' /\ pause_physics s' = true.
Proof.
  intros Hc Hp. destruct c; try discriminate; simpl.
  - rewrite (tick_paused E fuel s Hp). eauto.
  - eauto.
  - unfold jump. step_monad.
    destruct (on_ground (pos s)); [|eauto].
    destruct (vec_attr (pc s)) eqn:Hv; [|eauto].
    destruct (norm E _); step_monad; rewrite ?Hv; simpl; eauto.
  - eauto.
  - eauto.
  - eauto.
  - eauto.
Qed.

(** C9.  After [stop_physics], and whatever calls other than
    [start_physics] follow, the run of calls goes through and leaves a
    state in which a tick returns at once with the state as it was:
    position, velocity, [on_ground] and intent are those before the tick. *)
Theorem paused_tick_changes_nothing E s cs :
  forallb (fun c => negb (is_start c)) cs = true ->
  exists s',
    run E (StopPhysics :: cs) s = Some s'
    /\ pause_physics s' = true
    /\ forall fuel, tick E fuel s' = Ok (Some true) s'.
Proof.
  assert (H : forall s0, pause_physics s0 = true ->
    forallb (fun c => negb (is_start c)) cs = true ->
    exists s', run E cs s0 = Some s' /\ pause_physics s' = true
               /\ forall fuel, tick E fuel s' = Ok (Some true) s').
  { induction cs as [|c cs IH]; intros s0 Hp Hcs; simpl in *.
    - exists s0. repeat split; [exact Hp | intros fuel; apply tick_paused, Hp].
    - apply andb_true_iff in Hcs. destruct Hcs as [Hc Hcs].
      apply negb_true_iff in Hc.
      destruct (perform_keeps_pause E c s0 Hc Hp) as [s1 [-> Hp1]].
      apply IH; assumption. }
  intros Hcs. apply (H (set_pause_physics true (set_vec Vector3.zero s)) eq_refl Hcs).
Qed.

Lemma paused_tick_changes_nothing_witness :
  exists s',
    run floor_below [StopPhysics; Tick 0; Jump; Sprint; Tick 5] falling = Some s'
    /\ pause_physics s' = true
    /\ forall fuel, tick floor_below fuel s' = Ok (Some true) s'.
Proof.
  apply (paused_tick_changes_nothing floor_below falling [Tick 0; Jump; Sprint; Tick 5]).
  reflexivity.
Defined.

(** ** The intent setters and the caller's vector *)

Lemma fresh_not_stored (m : gmap loc Vector3) (l : loc) (v : Vector3) :
  m !! l = Some v -> fresh (dom m) <> l.
Proof.
  intros Hl Heq. apply (is_fresh (dom m)). rewrite Heq.
  apply elem_of_dom. exists v. exact Hl.
Qed.

(** C10.  The intent setters write through the reference they are given.
    After [move_target] the caller's vector holds the entity's y position
    as its vertical component, and the intent is a new vector computed
    from the overwritten one; after [move_vector] the caller's vector
    holds zero as its vertical component and is itself the intent.  The
    other two components are kept, and the object is no longer what it
    was whenever its vertical component differed in value from the one
    written. *)
Theorem intent_setters_overwrite_argument s vector v :
  heap s !! vector = Some v ->
  (exists s',
      move_target vector s = Ok tt s'
      /\ heap s' !! vector = Some (Vector3.set_y v (Vector3.y (coords (pos s))))
      /\ direction (pc s') <> vector
      /\ heap s' !! direction (pc s')
         = Some (Vector3.sub (Vector3.set_y v (Vector3.y (coords (pos s)))) (coords (pos s)))
      /\ (~ Vector3.y v == Vector3.y (coords (pos s)) -> heap s' !! vector <> heap s !! vector))
  /\ (exists s',
      move_vector vector s = Ok tt s'
      /\ heap s' !! vector = Some (Vector3.set_y v 0)
      /\ direction (pc s') = vector
      /\ (~ Vector3.y v == 0 -> heap s' !! vector <> heap s !! vector)).
Proof.
  intros Hv.
  assert (Hval : heap s !!! vector = v) by (apply lookup_total_correct; exact Hv).
  split.
  - eexists. split; [unfold move_target; step_monad; reflexivity|]. simpl.
    rewrite Hval.
    set (m1 := <[vector := Vector3.set_y v (Vector3.y (coords (pos s)))]> (heap s)).
    assert (H1 : m1 !! vector = Some (Vector3.set_y v (Vector3.y (coords (pos s)))))
      by apply lookup_insert_eq.
    assert (Hne : fresh (dom m1) <> vector) by (eapply fresh_not_stored; exact H1).
    assert (Hget : m1 !!! vector = Vector3.set_y v (Vector3.y (coords (pos s))))
      by (apply lookup_total_correct; exact H1).
    rewrite Hget.
    repeat split.
    + rewrite lookup_insert_ne by exact Hne. exact H1.
    + exact Hne.
    + apply lookup_insert_eq.
    + intros Hy. rewrite lookup_insert_ne by exact Hne. rewrite H1, Hv.
      intros [= Heq]. apply Hy. rewrite <- Heq. reflexivity.
  - eexists. split; [unfold move_vector; step_monad; reflexivity|]. simpl.
    rewrite Hval. repeat split.
    + apply lookup_insert_eq.
    + intros Hy. rewrite lookup_insert_eq, Hv.
      intros [= Heq]. apply Hy. rewrite <- Heq. reflexivity.
Qed.

Lemma intent_setters_overwrite_argument_witness :
  (exists s',
      move_target target with_target = Ok tt s'
      /\ heap s' !! target = Some (Vector3.new 3 10 5))
  /\ (exists s',
      move_vector target with_target = Ok tt s'
      /\ heap s' !! target = Some (Vector3.new 3 0 5)
      /\ direction (pc s') = target).
Proof.
  destruct (intent_setters_overwrite_argument with_target target (Vector3.new 3 4 5))
    as [[s1 [Hrun1 [Hy1 _]]] [s2 [Hrun2 [Hy2 [Hdir _]]]]].
  - reflexivity.
  - split.
    + exists s1. split; [exact Hrun1 | exact Hy1].
    + exists s2. split; [exact Hrun2 | split; [exact Hy2 | exact Hdir]].
Defined.

(** ** Supplements *)

(** The [else] of the first loop is reached in one way only: at a frame
    with an empty deque and a non-empty last result. *)
Lemma search_else_inv E pos vec fuel : forall f,
  search E pos vec fuel f = Some Else ->
  exists n f', (n <= fuel)%nat /\ iterate E pos vec n f = Some f'
               /\ q f' = [] /\ transform_vectors f' <> [].
Proof.
  induction fuel as [|fuel IH]; intros f; simpl;
    destruct (while_cond f) eqn:Hc; try discriminate.
  - intros _. exists 0%nat, f. apply while_cond_false in Hc. simpl. intuition lia.
  - destruct (body E pos vec f) as [f1|] eqn:Hb; [|discriminate].
    intros H. destruct (IH f1 H) as [n [f' [Hn [Hit Hq]]]].
    exists (S n), f'. simpl. rewrite Hc, Hb. intuition lia.
  - intros _. exists 0%nat, f. apply while_cond_false in Hc. simpl. intuition lia.
Qed.

Section Preserves.

Variable P : State -> Prop.

Lemma preserves_bind {A B} (m : M A) (k : A -> M B) :
  preserves P m -> (forall a, preserves P (k a)) -> preserves P (bind m k).
Proof.
  intros Hm Hk s Hs s'. unfold bind. destruct (m s) as [a s1|e s1|] eqn:Hms.
  - apply (Hk a s1). apply (Hm s Hs). rewrite Hms. reflexivity.
  - intros [= <-]. apply (Hm s Hs). rewrite Hms. reflexivity.
  - discriminate.
Qed.

Lemma preserves_ret {A} (a : A) : preserves P (ret a).
Proof. intros s Hs s' [= <-]. exact Hs. Qed.

Lemma preserves_get : preserves P get.
Proof. intros s Hs s' [= <-]. exact Hs. Qed.

Lemma preserves_raise {A} (e : exn) : preserves P (@raise A e).
Proof. intros s Hs s' [= <-]. exact Hs. Qed.

Lemma preserves_out_of_fuel {A} : preserves P (@out_of_fuel A).
Proof. intros s Hs s'. discriminate. Qed.

Lemma preserves_lift {A} (r : exn + A) : preserves P (lift r).
Proof. destruct r; [apply preserves_raise | apply preserves_ret]. Qed.

Lemma preserves_modify (f : State -> State) :
  (forall s, P s -> P (f s)) -> preserves P (modify f).
Proof. intros Hf s Hs s' [= <-]. apply Hf, Hs. Qed.

End Preserves.

Ltac preserves_steps :=
  repeat first
    [ apply preserves_bind; [|intros ?]
    | apply preserves_ret
    | apply preserves_get
    | apply preserves_raise
    | apply preserves_out_of_fuel
    | apply preserves_lift
    | apply preserves_modify; intros ? ?; simpl; assumption
    | match goal with
      | |- preserves _ (if ?c then _ else _) => destruct c
      | |- preserves _ (match ?x with _ => _ end) => destruct x
      end ].

Lemma tick_keeps_vec_unbound E fuel : preserves vec_unbound (tick E fuel).
Proof.
  unfold tick, apply_accel, get_mtv, apply_vector, apply_drag, get_block_slip,
    alloc, deref, warn, vec_unbound.
  preserves_steps.
Qed.

(** No call binds the attribute [vec] of the core: once unbound, it stays
    unbound, and [jump] on the ground raises whenever it is called. *)
Lemma perform_keeps_vec_unbound E c s s' :
  vec_attr (pc s) = None ->
  perform E c s = Some s' ->
  vec_attr (pc s') = None.
Proof.
  intros Hv. destruct c; simpl.
  - apply (tick_keeps_vec_unbound E fuel s Hv).
  - intros [= <-]. exact Hv.
  - intros [= <-]. exact Hv.
  - unfold jump. step_monad. destruct (on_ground (pos s)); [|intros [= <-]; exact Hv].
    rewrite Hv. simpl. intros [= <-]. exact Hv.
  - intros [= <-]. exact Hv.
  - intros [= <-]. exact Hv.
  - unfold move_target. step_monad. intros [= <-]. exact Hv.
  - unfold move_vector. step_monad. intros [= <-]. exact Hv.
Qed.

Lemma run_keeps_vec_unbound E cs : forall s s',
  vec_attr (pc s) = None ->
  run E cs s = Some s' ->
  vec_attr (pc s') = None.
Proof.
  induction cs as [|c cs IH]; intros s s' Hv; simpl.
  - intros [= <-]. exact Hv.
  - destruct (perform E c s) as [s1|] eqn:Hp; [|discriminate].
    apply IH. eapply perform_keeps_vec_unbound; eassumption.
Qed.

(** After any run of calls on a freshly built plugin, [jump] on the ground
    raises and leaves the state alone. *)
Lemma jump_on_ground_always_raises E position ab m cs s :
  run E cs (PhysicsPlugin_init position ab m) = Some s ->
  on_ground (pos s) = true ->
  jump E s = Raise (AttributeError "vec") s.
Proof.
  intros Hrun Hg. apply jump_unbound_vec; [exact Hg|].
  eapply run_keeps_vec_unbound; [|exact Hrun]. reflexivity.
Qed.

(** The floor of the design document's scenario: the search offers the
    step up, accepts it at the second pop and returns it. *)
Example floor_below_returns_up :
  get_mtv floor_below 2 falling = Ok up falling.
Proof. reflexivity. Qed.

(** * Further properties of the helper *)

(** ** Inverting computations *)

Lemma bind_Ok {A B} (m : M A) (k : A -> M B) s b s' :
  bind m k s = Ok b s' -> exists a s1, m s = Ok a s1 /\ k a s1 = Ok b s'.
Proof.
  unfold bind. destruct (m s) as [a s1|e s1|]; try discriminate. eauto.
Qed.

Lemma bind_Raise {A B} (m : M A) (k : A -> M B) s e s' :
  m s = Raise e s' -> bind m k s = Raise e s'.
Proof. unfold bind. intros ->. reflexivity. Qed.

Lemma tick_unpaused E fuel s :
  pause_physics s = false ->
  tick E fuel s
    = bind (apply_accel E) (fun _ => bind (get_mtv E fuel) (finish_tick E)) (dragged E s).
Proof. intros Hp. unfold tick. step_monad. rewrite Hp. reflexivity. Qed.

Lemma finish_tick_moved E mtv s : finish_tick E mtv s = Ok None (moved E mtv s).
Proof.
  unfold finish_tick, apply_vector, apply_drag, get_block_slip, moved, slip_at, blocked.
  step_monad. destruct (negb (Qle_bool (Vector3.y mtv) 0)); reflexivity.
Qed.

(** ** What the first half of a tick leaves alone *)

Lemma same_frame_refl s : same_frame s s.
Proof. repeat split. Qed.

Lemma apply_accel_frame E s0 : preserves (same_frame s0) (apply_accel E).
Proof.
  unfold apply_accel, get_block_slip, deref, same_frame.
  preserves_steps.
Qed.

Lemma get_mtv_frame E fuel s0 : preserves (same_frame s0) (get_mtv E fuel).
Proof.
  unfold get_mtv, warn, same_frame.
  preserves_steps.
Qed.

(** ** What [get_mtv] returns *)

Lemma body_next_all_truthy E pos vec f f' :
  body E pos vec f = Next f' -> py_all (transform_vectors f') = true.
Proof.
  unfold body. destruct (popleft f) as [c q1].
  destruct (py_all (check_collision E pos c)) eqn:Hall; simpl; [|discriminate].
  intros [= <-]. exact Hall.
Qed.

Lemma iterate_all_truthy E pos vec n : forall f f',
  py_all (transform_vectors f) = true ->
  iterate E pos vec n f = Some f' ->
  py_all (transform_vectors f') = true.
Proof.
  induction n as [|n IH]; intros f f' Hall; simpl.
  - intros [= <-]. exact Hall.
  - destruct (while_cond f); [|discriminate].
    destruct (body E pos vec f) as [f1|] eqn:Hb; [|discriminate].
    apply IH. eapply body_next_all_truthy, Hb.
Qed.

Lemma bailed_out_differs s : bailed_out s <> s.
Proof.
  intros H. apply (f_equal log) in H. simpl in H.
  apply (f_equal (@length string)) in H. rewrite length_app in H. simpl in H. lia.
Qed.

(** The candidate that leaves the first loop through [break] was accepted,
    and it and the rest of the deque come from the deque or are the zero
    vector the loop starts with. *)
Lemma search_break_inv E pos vec (P : Vector3 -> Prop) fuel : forall f c q1,
  P Vector3.zero ->
  Forall P (q f) ->
  (forall f1 f2, Forall P (q f1) -> body E pos vec f1 = Next f2 -> Forall P (q f2)) ->
  search E pos vec fuel f = Some (Break c q1) ->
  accepted E pos c = true /\ P c /\ Forall P q1.
Proof.
  induction fuel as [|fuel IH]; intros f c q1 H0 Hq Hstep; simpl;
    destruct (while_cond f); try discriminate.
  destruct (body E pos vec f) as [f1|c' q'] eqn:Hb.
  - apply IH; [exact H0 | eapply Hstep; eassumption | exact Hstep].
  - intros [= <- <-]. unfold body in Hb.
    destruct (popleft f) as [c0 q0] eqn:Hpop.
    destruct (negb (py_all (check_collision E pos c0))) eqn:Hacc; [|discriminate].
    injection Hb as <- <-. split; [exact Hacc|].
    unfold popleft in Hpop. destruct (q f) as [|c1 q2]; injection Hpop as <- <-.
    + split; [exact H0 | constructor].
    + inversion Hq; subst. split; assumption.
Qed.

Lemma min_possible_In E pos c q1 :
  In (min_possible E pos c q1) (c :: List.filter (accepted E pos) q1).
Proof. rewrite min_possible_filter. apply py_min_In. Qed.

Lemma speed_bound_zero vec : speed_bound vec Vector3.zero.
Proof.
  unfold speed_bound.
  assert (H : Vector3.dist_sq (Vector3.add vec Vector3.zero) == Vector3.dist_sq vec)
    by (unfold Vector3.dist_sq, Vector3.add; simpl; ring).
  rewrite H. rewrite <- (Qplus_0_r (Vector3.dist_sq vec)) at 1.
  apply Qplus_le_compat; [apply Qle_refl | discriminate].
Qed.

(** X1.  [get_mtv] never raises, and when it returns it has either left
    the whole state as it was, or returned the zero vector from its failure
    path, with the velocity zeroed and the warning as the one new entry of
    the log.  The failure path is taken only from a loop test at which the
    deque is empty and the last result is non-empty with no zero vector in
    it. *)
Theorem get_mtv_outcomes E fuel s :
  get_mtv E fuel s = OutOfFuel
  \/ (exists m, get_mtv E fuel s = Ok m s)
  \/ (get_mtv E fuel s = Ok Vector3.zero (bailed_out s)
      /\ exists n f,
           (n <= fuel)%nat
           /\ iterate E (attempted_position E s) (vec s) n entry = Some f
           /\ q f = []
           /\ transform_vectors f <> []
           /\ py_all (transform_vectors f) = true).
Proof.
  destruct (search E (attempted_position E s) (vec s) fuel entry) as [[c q1|]|] eqn:Hs.
  - right. left. rewrite (get_mtv_break _ _ _ _ _ Hs). eauto.
  - right. right. split; [apply get_mtv_else, Hs|].
    destruct (search_else_inv _ _ _ _ _ Hs) as [n [f [Hn [Hit [Hq Ht]]]]].
    exists n, f. repeat split; try assumption.
    eapply iterate_all_truthy; [|exact Hit]. reflexivity.
  - left. apply get_mtv_out_of_fuel, Hs.
Qed.

(** X2.  A correction that [get_mtv] returns with the state untouched is a
    candidate the collision primitive was asked about and whose result
    held a zero vector. *)
Theorem returned_correction_was_accepted E fuel s m :
  get_mtv E fuel s = Ok m s ->
  exists v, In v (check_collision E (attempted_position E s) m) /\ is_zero v.
Proof.
  intros Hg. apply accepted_true.
  destruct (search E (attempted_position E s) (vec s) fuel entry) as [[c q1|]|] eqn:Hs.
  - rewrite (get_mtv_break _ _ _ _ _ Hs) in Hg. injection Hg as <-.
    destruct (search_break_inv E (attempted_position E s) (vec s) (fun _ => True) fuel entry c q1) as [Hc _];
      [exact I | constructor | | exact Hs |].
    + intros f1 f2 _ _. apply List.Forall_forall. intros; exact I.
    + destruct (min_possible_In E (attempted_position E s) c q1) as [<- | Hin];
        [exact Hc|].
      apply filter_In in Hin. apply Hin.
  - rewrite (get_mtv_else _ _ _ Hs) in Hg. injection Hg as _ Hb.
    destruct (bailed_out_differs s Hb).
  - rewrite (get_mtv_out_of_fuel _ _ _ Hs) in Hg. discriminate.
Qed.

Lemma returned_correction_was_accepted_witness :
  exists v, In v (check_collision two_steps (attempted_position two_steps falling) half_up)
            /\ is_zero v.
Proof.
  apply (returned_correction_was_accepted two_steps 2 falling half_up). reflexivity.
Defined.

(** ** A completed tick *)

(** An unpaused tick that returns went through [apply_accel] and
    [get_mtv], neither of which touched anything but the velocity and the
    log, and ended in the state [moved] describes. *)
Lemma tick_Ok_inv E fuel s r s' :
  pause_physics s = false ->
  tick E fuel s = Ok r s' ->
  exists sa mtv sm,
    apply_accel E (dragged E s) = Ok tt sa
    /\ get_mtv E fuel sa = Ok mtv sm
    /\ same_frame s sm
    /\ r = None
    /\ s' = moved E mtv sm.
Proof.
  intros Hp Ht. rewrite (tick_unpaused E fuel s Hp) in Ht.
  apply bind_Ok in Ht. destruct Ht as [[] [sa [Ha Ht]]].
  apply bind_Ok in Ht. destruct Ht as [mtv [sm [Hm Hf]]].
  rewrite finish_tick_moved in Hf. injection Hf as <- <-.
  exists sa, mtv, sm. repeat split; try assumption;
    assert (Hfa : same_frame (dragged E s) sa)
      by (apply (apply_accel_frame E _ _ (same_frame_refl _)); rewrite Ha; reflexivity);
    assert (Hfm : same_frame (dragged E s) sm)
      by (apply (get_mtv_frame E fuel _ _ Hfa); rewrite Hm; reflexivity);
    apply Hfm.
Qed.

Lemma nonzero_true k : ~ k == 0 -> Vector3.nonzero k = true.
Proof.
  intros Hk. unfold Vector3.nonzero. destruct (Qeq_bool k 0) eqn:Hq; [|reflexivity].
  apply Qeq_bool_iff in Hq. contradiction.
Qed.

Lemma on_ground_flag k : negb (Qle_bool k 0) = true <-> 0 < k.
Proof.
  rewrite negb_true_iff, <- not_true_iff_false, Qle_bool_iff.
  split; [apply Qnot_le_lt | apply Qlt_not_le].
Qed.

(** X4.  An unpaused tick that returns clears the intent by binding
    [direction] to a new zero vector: the store gains that one object, and
    every vector that existed before holds what it held.  In particular
    the vector that was the intent, the caller's own after [move_vector],
    is not the intent any more and is not zeroed. *)
Theorem completed_tick_rebinds_intent E fuel s r s' :
  pause_physics s = false ->
  tick E fuel s = Ok r s' ->
  r = None
  /\ direction (pc s') = fresh (dom (heap s))
  /\ heap s' = <[fresh (dom (heap s)) := Vector3.zero]> (heap s)
  /\ intent s' = Vector3.zero
  /\ (forall l v, heap s !! l = Some v -> heap s' !! l = Some v)
  /\ (forall v, heap s !! direction (pc s) = Some v ->
        direction (pc s') <> direction (pc s)
        /\ heap s' !! direction (pc s) = Some v).
Proof.
  intros Hp Ht.
  destruct (tick_Ok_inv E fuel s r s' Hp Ht) as [sa [mtv [sm [_ [_ [Hf [-> ->]]]]]]].
  destruct Hf as [_ [_ [Hpc Hh]]]. unfold intent. simpl. rewrite Hh.
  assert (Hkeep : forall l v, heap s !! l = Some v ->
            <[fresh (dom (heap s)) := Vector3.zero]> (heap s) !! l = Some v).
  { intros l v Hl. rewrite lookup_insert_ne; [exact Hl|].
    eapply fresh_not_stored, Hl. }
  repeat split.
  - apply lookup_total_insert_eq.
  - exact Hkeep.
  - eapply fresh_not_stored. eassumption.
  - apply Hkeep. assumption.
Qed.

Lemma completed_tick_rebinds_intent_witness :
  direction (pc aimed) = target
  /\ heap aimed !! target = Some (Vector3.new 3 0 5)
  /\ direction (pc (after plain_ground [Tick 1] aimed)) <> target
  /\ heap (after plain_ground [Tick 1] aimed) !! target = Some (Vector3.new 3 0 5)
  /\ intent (after plain_ground [Tick 1] aimed) = Vector3.zero.
Proof.
  assert (Ht : tick plain_ground 1 aimed = Ok None (after plain_ground [Tick 1] aimed))
    by (vm_compute; reflexivity).
  assert (Hv : heap aimed !! direction (pc aimed) = Some (Vector3.new 3 0 5))
    by (vm_compute; reflexivity).
  destruct (completed_tick_rebinds_intent plain_ground 1 aimed None
              (after plain_ground [Tick 1] aimed) eq_refl Ht)
    as [_ [_ [_ [Hi [_ Hformer]]]]].
  destruct (Hformer (Vector3.new 3 0 5) Hv) as [Hne Hsame].
  split; [reflexivity|]. split; [exact Hv|]. split; [exact Hne|].
  split; [exact Hsame | exact Hi].
Defined.

(** X5.  An unpaused tick that returns has moved the body by its velocity
    plus the correction [get_mtv] returned; the body is on the ground
    exactly when the correction points up; an axis along which the
    correction is not zero ends the tick with velocity zero if it is
    horizontal, and with one tick of gravity, dragged, if it is the
    vertical one. *)
Theorem completed_tick_moves_body E fuel s r s' :
  pause_physics s = false ->
  tick E fuel s = Ok r s' ->
  exists sa mtv sm,
    apply_accel E (dragged E s) = Ok tt sa
    /\ get_mtv E fuel sa = Ok mtv sm
    /\ coords (pos s') = Vector3.add (coords (pos s)) (Vector3.add (vec sm) mtv)
    /\ (on_ground (pos s') = true <-> 0 < Vector3.y mtv)
    /\ (~ Vector3.x mtv == 0 -> Vector3.x (vec s') == 0)
    /\ (~ Vector3.y mtv == 0 ->
        Vector3.y (vec s') == - (PHY_GAV_ACC (const E) * PHY_BASE_DRG (const E)))
    /\ (~ Vector3.z mtv == 0 -> Vector3.z (vec s') == 0).
Proof.
  intros Hp Ht.
  destruct (tick_Ok_inv E fuel s r s' Hp Ht) as [sa [mtv [sm [Ha [Hm [Hf [-> ->]]]]]]].
  destruct Hf as [Hpos _].
  exists sa, mtv, sm. split; [exact Ha|]. split; [exact Hm|]. simpl. rewrite Hpos.
  split; [reflexivity|]. split; [apply on_ground_flag|].
  repeat split; intros Hk; rewrite (nonzero_true _ Hk); ring.
Qed.

Lemma completed_tick_moves_body_witness :
  exists sa mtv sm,
    apply_accel floor_below (dragged floor_below falling) = Ok tt sa
    /\ get_mtv floor_below 2 sa = Ok mtv sm
    /\ coords (pos (moved floor_below up (dragged floor_below falling)))
       = Vector3.add (coords (pos falling)) (Vector3.add (vec sm) mtv)
    /\ (on_ground (pos (moved floor_below up (dragged floor_below falling))) = true
        <-> 0 < Vector3.y mtv)
    /\ (~ Vector3.x mtv == 0 ->
        Vector3.x (vec (moved floor_below up (dragged floor_below falling))) == 0)
    /\ (~ Vector3.y mtv == 0 ->
        Vector3.y (vec (moved floor_below up (dragged floor_below falling)))
        == - (PHY_GAV_ACC (const floor_below) * PHY_BASE_DRG (const floor_below)))
    /\ (~ Vector3.z mtv == 0 ->
        Vector3.z (vec (moved floor_below up (dragged floor_below falling))) == 0).
Proof.
  apply (completed_tick_moves_body floor_below 2 falling None
           (moved floor_below up (dragged floor_below falling))); reflexivity.
Defined.

(** X6.  A tick in free fall: with no intent and a result at the zero
    vector that holds a zero vector, an unpaused tick returns; the body has
    moved by the dragged velocity and is in the air; the vertical velocity
    has been dragged, reduced by gravity and dragged again; the horizontal
    velocity has been dragged and multiplied by [PHY_DRG_MUL], whatever the
    blocks of the world are. *)
Theorem free_fall_tick E fuel s v :
  pause_physics s = false ->
  is_zero (intent s) ->
  In v (check_collision E (attempted_position E (dragged E s)) Vector3.zero) ->
  is_zero v ->
  exists s',
    tick E (S fuel) s = Ok None s'
    /\ on_ground (pos s') = false
    /\ Vector3.x (coords (pos s'))
       == Vector3.x (coords (pos s)) + Vector3.x (vec s) * PHY_BASE_DRG (const E)
    /\ Vector3.y (coords (pos s'))
       == Vector3.y (coords (pos s)) + Vector3.y (vec s) * PHY_BASE_DRG (const E)
    /\ Vector3.z (coords (pos s'))
       == Vector3.z (coords (pos s)) + Vector3.z (vec s) * PHY_BASE_DRG (const E)
    /\ Vector3.x (vec s')
       == Vector3.x (vec s) * PHY_BASE_DRG (const E) * PHY_DRG_MUL (const E)
    /\ Vector3.y (vec s')
       == (Vector3.y (vec s) * PHY_BASE_DRG (const E) - PHY_GAV_ACC (const E))
          * PHY_BASE_DRG (const E)
    /\ Vector3.z (vec s')
       == Vector3.z (vec s) * PHY_BASE_DRG (const E) * PHY_DRG_MUL (const E)
    /\ log s' = log s.
Proof.
  intros Hp Hi Hin Hz.
  exists (moved E Vector3.zero (dragged E s)). split.
  - rewrite (tick_unpaused E (S fuel) s Hp). unfold bind at 1.
    rewrite (apply_accel_zero_direction E (dragged E s) Hi). unfold bind.
    rewrite (get_mtv_first_pop E (dragged E s) fuel) by (apply accepted_true; eauto).
    apply finish_tick_moved.
  - unfold moved, slip_at. simpl. repeat split; try reflexivity; ring.
Qed.

Lemma free_fall_tick_witness :
  exists s',
    tick boxed_in 1 falling = Ok None s'
    /\ on_ground (pos s') = false
    /\ Vector3.y (coords (pos s')) == 10 + -1 * (98 # 100)
    /\ Vector3.y (vec s') == (-1 * (98 # 100) - (8 # 100)) * (98 # 100).
Proof.
  destruct (free_fall_tick boxed_in 0 falling Vector3.zero)
    as [s' [Ht [Hg [_ [Hy [_ [_ [Hvy _]]]]]]]].
  - reflexivity.
  - vm_compute. repeat split; reflexivity.
  - left. reflexivity.
  - repeat split; reflexivity.
  - exists s'. repeat split; assumption.
Defined.

(** ** The intent and the caller's vector *)

(** The intent [move_target] leaves: a vector of its own, computed from
    the caller's vector once its vertical component is overwritten. *)
Lemma move_target_intent s vector v :
  heap s !! vector = Some v ->
  exists s',
    move_target vector s = Ok tt s'
    /\ direction (pc s') <> vector
    /\ intent s'
       = Vector3.sub (Vector3.set_y v (Vector3.y (coords (pos s)))) (coords (pos s)).
Proof.
  intros Hv.
  assert (Hval : heap s !!! vector = v) by (apply lookup_total_correct; exact Hv).
  eexists. split; [unfold move_target; step_monad; reflexivity|].
  unfold intent. simpl. rewrite Hval.
  set (m1 := <[vector := Vector3.set_y v (Vector3.y (coords (pos s)))]> (heap s)).
  assert (H1 : m1 !! vector = Some (Vector3.set_y v (Vector3.y (coords (pos s)))))
    by apply lookup_insert_eq.
  split; [eapply fresh_not_stored; exact H1|].
  rewrite lookup_total_insert_eq, (lookup_total_correct m1 vector _ H1). reflexivity.
Qed.

(** X7.  [move_vector] keeps the caller's object as the intent, so a later
    write of the caller to the vertical component of its vector is a write
    to the intent, which is then no longer flat; [move_target] computes a
    vector of its own, which the same write does not reach. *)
Theorem caller_write_reaches_aliased_intent s vector v k :
  heap s !! vector = Some v ->
  (exists s',
      bind (move_vector vector) (fun _ => store_y vector k) s = Ok tt s'
      /\ intent s' = Vector3.new (Vector3.x v) k (Vector3.z v))
  /\ (exists s',
      bind (move_target vector) (fun _ => store_y vector k) s = Ok tt s'
      /\ intent s'
         = Vector3.sub (Vector3.set_y v (Vector3.y (coords (pos s)))) (coords (pos s))).
Proof.
  intros Hv.
  assert (Hval : heap s !!! vector = v) by (apply lookup_total_correct; exact Hv).
  split.
  - eexists. split; [unfold move_vector; step_monad; reflexivity|].
    unfold intent. simpl. rewrite lookup_total_insert_eq, lookup_total_insert_eq, Hval.
    reflexivity.
  - eexists. split; [unfold move_target; step_monad; reflexivity|].
    unfold intent. simpl. rewrite Hval.
    set (m1 := <[vector := Vector3.set_y v (Vector3.y (coords (pos s)))]> (heap s)).
    assert (H1 : m1 !! vector = Some (Vector3.set_y v (Vector3.y (coords (pos s)))))
      by apply lookup_insert_eq.
    assert (Hne : fresh (dom m1) <> vector) by (eapply fresh_not_stored; exact H1).
    rewrite lookup_total_insert_ne by congruence.
    rewrite lookup_total_insert_eq.
    rewrite (lookup_total_correct m1 vector _ H1). reflexivity.
Qed.

Lemma caller_write_reaches_aliased_intent_witness :
  (exists s',
      bind (move_vector target) (fun _ => store_y target 9) with_target = Ok tt s'
      /\ intent s' = Vector3.new 3 9 5)
  /\ (exists s',
      bind (move_target target) (fun _ => store_y target 9) with_target = Ok tt s'
      /\ intent s' = Vector3.sub (Vector3.new 3 10 5) (Vector3.new 0 10 0)).
Proof.
  apply (caller_write_reaches_aliased_intent with_target target (Vector3.new 3 4 5) 9).
  reflexivity.
Defined.

(** X8.  [move_target] toward a point straight above or below the body
    (same x and z) leaves the zero vector as intent, and the acceleration
    step that follows returns with the state as it was, whatever
    [Vector3.norm] does with the zero vector. *)
Theorem move_target_overhead_gives_no_acceleration E s vector v :
  heap s !! vector = Some v ->
  Vector3.x v == Vector3.x (coords (pos s)) ->
  Vector3.z v == Vector3.z (coords (pos s)) ->
  exists s',
    move_target vector s = Ok tt s'
    /\ is_zero (intent s')
    /\ apply_accel E s' = Ok tt s'.
Proof.
  intros Hv Hx Hz.
  destruct (move_target_intent s vector v Hv) as [s' [Hrun [_ Hi]]].
  assert (Hzero : is_zero (intent s')).
  { rewrite Hi. unfold is_zero. simpl. rewrite Hx, Hz. repeat split; ring. }
  exists s'. split; [exact Hrun|]. split; [exact Hzero|].
  apply apply_accel_zero_direction, Hzero.
Qed.

Lemma move_target_overhead_gives_no_acceleration_witness :
  exists s',
    move_target target (set_heap (<[target := Vector3.new 0 64 0]> (heap falling)) falling)
      = Ok tt s'
    /\ is_zero (intent s')
    /\ apply_accel open_air s' = Ok tt s'.
Proof.
  apply (move_target_overhead_gives_no_acceleration open_air
           (set_heap (<[target := Vector3.new 0 64 0]> (heap falling)) falling)
           target (Vector3.new 0 64 0)); reflexivity.
Defined.

(** ** Errors of the acceleration step *)

Lemma truthy_true v : ~ is_zero v -> Vector3.truthy v = true.
Proof.
  intros Hv. destruct (Vector3.truthy v) eqn:Ht; [reflexivity|].
  apply truthy_false in Ht. contradiction.
Qed.

(** [apply_accel], case by case. *)
Lemma apply_accel_cases E s :
  apply_accel E s =
    if negb (Vector3.truthy (intent s)) then Ok tt s
    else if on_ground (pos s) then
      if Qeq_bool (slip_at E (pos s) ^ 3) 0 then Raise ZeroDivisionError s
      else match norm E (intent s) with
           | inl e => Raise e s
           | inr n =>
               Ok tt (set_vec (Vector3.add (vec s)
                        (Vector3.mul n (move_accel (pc s)
                           * (BASE_GND_SLIP (const E) ^ 3 / slip_at E (pos s) ^ 3)))) s)
           end
    else match norm E (intent s) with
         | inl e => Raise e s
         | inr n =>
             Ok tt (set_vec (Vector3.add (vec s) (Vector3.mul n (PHY_JMP_ACC (const E)))) s)
         end.
Proof.
  unfold apply_accel, get_block_slip, slip_at, intent, bind, get, deref, ret.
  cbv beta iota.
  destruct (negb (Vector3.truthy (heap s !!! direction (pc s)))); [reflexivity|].
  destruct (on_ground (pos s)) eqn:Hg; cbv beta iota; rewrite ?Hg; cbv beta iota.
  - match goal with |- context [Qeq_bool ?a 0] => destruct (Qeq_bool a 0) end;
      [reflexivity|].
    destruct (norm E (heap s !!! direction (pc s))); reflexivity.
  - destruct (norm E (heap s !!! direction (pc s))); reflexivity.
Qed.

(** [apply_accel] raises before it writes: the state of a raise is the
    state of the call. *)
Lemma apply_accel_raise_state E s e s' :
  apply_accel E s = Raise e s' -> s' = s.
Proof.
  rewrite apply_accel_cases.
  repeat match goal with
         | |- context [if ?c then _ else _] => destruct c
         | |- context [match norm E ?a with _ => _ end] => destruct (norm E a)
         end;
    try discriminate; intros [= _ <-]; reflexivity.
Qed.

Lemma get_mtv_no_raise E fuel s e s' : get_mtv E fuel s <> Raise e s'.
Proof.
  destruct (search E (attempted_position E s) (vec s) fuel entry) as [[c q1|]|] eqn:Hs.
  - rewrite (get_mtv_break _ _ _ _ _ Hs). discriminate.
  - rewrite (get_mtv_else _ _ _ Hs). discriminate.
  - rewrite (get_mtv_out_of_fuel _ _ _ Hs). discriminate.
Qed.

(** X9.  On the ground, with an intent that is not zero, over a block of
    slipperiness zero, [apply_accel] raises [ZeroDivisionError] (the
    division by [block_slip ** 3]) and leaves the state as it was;
    [Vector3.norm] is not reached. *)
Theorem apply_accel_on_zero_slip_raises E s :
  on_ground (pos s) = true ->
  ~ is_zero (intent s) ->
  block_slipperiness E (Qfloor (Vector3.x (coords (pos s))))
                       (Qfloor (Vector3.y (coords (pos s))) - 1)%Z
                       (Qfloor (Vector3.z (coords (pos s)))) == 0 ->
  apply_accel E s = Raise ZeroDivisionError s.
Proof.
  intros Hg Hi Hslip. apply truthy_true in Hi.
  rewrite apply_accel_cases, Hi, Hg. simpl negb. cbv iota.
  assert (Hq : Qeq_bool (slip_at E (pos s) ^ 3) 0 = true).
  { apply Qeq_bool_iff. unfold slip_at. rewrite Hg, Hslip. reflexivity. }
  rewrite Hq. reflexivity.
Qed.

Lemma apply_accel_on_zero_slip_raises_witness :
  apply_accel (frictionless (fun _ _ => [])) walking = Raise ZeroDivisionError walking.
Proof.
  apply (apply_accel_on_zero_slip_raises (frictionless (fun _ _ => [])) walking).
  - reflexivity.
  - intros [Hx _]. vm_compute in Hx. discriminate.
  - reflexivity.
Defined.

(** X10.  An unpaused tick raises exactly when its acceleration step does,
    with the same exception; [get_mtv] and the rest of the tick raise
    nothing.  The state is then the one after the first drag: position,
    [on_ground], store and log are untouched, and the intent is not
    cleared. *)
Theorem tick_raises_only_in_apply_accel E fuel s e s' :
  pause_physics s = false ->
  (tick E fuel s = Raise e s' <-> apply_accel E (dragged E s) = Raise e s')
  /\ (tick E fuel s = Raise e s' -> s' = dragged E s).
Proof.
  intros Hp. rewrite (tick_unpaused E fuel s Hp).
  assert (Hiff : bind (apply_accel E) (fun _ => bind (get_mtv E fuel) (finish_tick E))
                   (dragged E s) = Raise e s'
                 <-> apply_accel E (dragged E s) = Raise e s').
  { split.
    - unfold bind at 1. destruct (apply_accel E (dragged E s)) as [[] sa|e1 s1|];
        [|intros [= -> ->]; reflexivity|discriminate].
      unfold bind. destruct (get_mtv E fuel sa) as [mtv sm|e2 s2|] eqn:Hm.
      + rewrite finish_tick_moved. discriminate.
      + destruct (get_mtv_no_raise _ _ _ _ _ Hm).
      + discriminate.
    - apply bind_Raise. }
  split; [exact Hiff|].
  intros Ht. apply Hiff in Ht. apply apply_accel_raise_state in Ht. exact Ht.
Qed.

Lemma tick_raises_only_in_apply_accel_witness :
  tick (frictionless (fun _ _ => [])) 0 walking
    = Raise ZeroDivisionError (dragged (frictionless (fun _ _ => [])) walking).
Proof.
  destruct (tick_raises_only_in_apply_accel (frictionless (fun _ _ => [])) 0 walking
              ZeroDivisionError (dragged (frictionless (fun _ _ => [])) walking))
    as [[_ Hback] _].
  - reflexivity.
  - apply Hback. reflexivity.
Defined.

(** ** The acceleration added *)

Lemma cube_nonzero k : ~ k == 0 -> ~ k ^ 3 == 0.
Proof.
  intros Hk H. apply Hk.
  assert (H3 : k ^ 3 == k * (k * k)) by (simpl; ring).
  rewrite H3 in H. apply Qmult_integral in H. destruct H as [H | H]; [exact H|].
  apply Qmult_integral in H. tauto.
Qed.

(** X11.  With an intent that is not zero and that [Vector3.norm] turns
    into [n], [apply_accel] adds [n] times an acceleration to the velocity
    and changes nothing else: in the air the acceleration is
    [PHY_JMP_ACC], whatever the world; on a block whose slipperiness is
    the base ground slipperiness (not zero) it is [move_accel]. *)
Theorem apply_accel_adds_acceleration E s n :
  ~ is_zero (intent s) ->
  norm E (intent s) = inr n ->
  (on_ground (pos s) = false ->
   apply_accel E s
     = Ok tt (set_vec (Vector3.add (vec s) (Vector3.mul n (PHY_JMP_ACC (const E)))) s))
  /\ (on_ground (pos s) = true ->
      block_slipperiness E (Qfloor (Vector3.x (coords (pos s))))
                           (Qfloor (Vector3.y (coords (pos s))) - 1)%Z
                           (Qfloor (Vector3.z (coords (pos s)))) == BASE_GND_SLIP (const E) ->
      ~ BASE_GND_SLIP (const E) == 0 ->
      exists v',
        apply_accel E s = Ok tt (set_vec v' s)
        /\ Vector3.x v' == Vector3.x (vec s) + Vector3.x n * move_accel (pc s)
        /\ Vector3.y v' == Vector3.y (vec s) + Vector3.y n * move_accel (pc s)
        /\ Vector3.z v' == Vector3.z (vec s) + Vector3.z n * move_accel (pc s)).
Proof.
  intros Hi Hn. apply truthy_true in Hi. split.
  - intros Hg. rewrite apply_accel_cases, Hi, Hg, Hn. reflexivity.
  - intros Hg Hslip Hbase.
    assert (Hs : slip_at E (pos s) == BASE_GND_SLIP (const E))
      by (unfold slip_at; rewrite Hg; exact Hslip).
    assert (Hq : Qeq_bool (slip_at E (pos s) ^ 3) 0 = false).
    { destruct (Qeq_bool (slip_at E (pos s) ^ 3) 0) eqn:Hq; [|reflexivity].
      apply Qeq_bool_iff in Hq. rewrite Hs in Hq.
      destruct (cube_nonzero _ Hbase Hq). }
    eexists. split; [rewrite apply_accel_cases, Hi, Hg, Hq, Hn; reflexivity|].
    assert (Hone : move_accel (pc s)
                   * (BASE_GND_SLIP (const E) ^ 3 / slip_at E (pos s) ^ 3)
                   == move_accel (pc s)).
    { rewrite Hs. field. exact Hbase. }
    cbn [Vector3.x Vector3.y Vector3.z Vector3.add Vector3.mul].
    rewrite Hone. repeat split; reflexivity.
Qed.

Lemma apply_accel_adds_acceleration_witness :
  exists v',
    apply_accel plain_ground walking = Ok tt (set_vec v' walking)
    /\ Vector3.x v' == 0 + 1 * (1 # 10)
    /\ Vector3.y v' == 0 + 0 * (1 # 10)
    /\ Vector3.z v' == 0 + 0 * (1 # 10).
Proof.
  destruct (apply_accel_adds_acceleration plain_ground walking (Vector3.new 1 0 0))
    as [_ Hground].
  - intros [Hx _]. vm_compute in Hx. discriminate.
  - reflexivity.
  - apply Hground.
    + reflexivity.
    + reflexivity.
    + discriminate.
Defined.

(** ** Modes and the core's invariants *)

(** X12.  [walk] and [sprint] set the acceleration from the walking speed
    of the abilities, not from the acceleration they find: sprinting twice
    multiplies once, each mode undoes the other, and neither touches
    anything but [move_accel]. *)
Theorem walk_and_sprint_do_not_compound E s :
  bind (sprint E) (fun _ => sprint E) s = sprint E s
  /\ bind walk (fun _ => walk) s = walk s
  /\ bind (sprint E) (fun _ => walk) s = walk s
  /\ bind walk (fun _ => sprint E) s = sprint E s
  /\ sprint E s
     = Ok tt (set_pc (set_move_accel
                        (walking_speed (abilities (pc s)) * PHY_SPR_MUL (const E)) (pc s)) s)
  /\ walk s
     = Ok tt (set_pc (set_move_accel (walking_speed (abilities (pc s))) (pc s)) s).
Proof. repeat split. Qed.

(** The abilities of the core and the two values its acceleration takes. *)
Lemma perform_keeps_modes E ab c s s' :
  abilities (pc s) = ab ->
  move_accel (pc s) = walking_speed ab
  \/ move_accel (pc s) = walking_speed ab * PHY_SPR_MUL (const E) ->
  perform E c s = Some s' ->
  abilities (pc s') = ab
  /\ (move_accel (pc s') = walking_speed ab
      \/ move_accel (pc s') = walking_speed ab * PHY_SPR_MUL (const E)).
Proof.
  intros Hab Hacc.
  set (P := fun s0 : State =>
    abilities (pc s0) = ab
    /\ (move_accel (pc s0) = walking_speed ab
        \/ move_accel (pc s0) = walking_speed ab * PHY_SPR_MUL (const E))).
  assert (HP : P s) by (split; assumption).
  destruct c; simpl.
  - assert (Ht : preserves P (tick E fuel)).
    { unfold tick, apply_accel, get_mtv, apply_vector, apply_drag, get_block_slip,
        alloc, deref, warn, P.
      preserves_steps. }
    apply (Ht s HP).
  - intros [= <-]. exact HP.
  - intros [= <-]. exact HP.
  - assert (Hj : preserves P (jump E)).
    { unfold jump, getattr_vec, setattr_vec, P. preserves_steps.
      - intros s0 Hs0 s1. destruct (vec_attr (pc s0)); intros [= <-]; exact Hs0.
      - intros s0 Hs0 s1. destruct (vec_attr (pc s0)); intros [= <-]; exact Hs0.
      - intros s0 Hs0 s1. destruct (vec_attr (pc s0)); intros [= <-]; exact Hs0. }
    apply (Hj s HP).
  - intros [= <-]. simpl. rewrite Hab. auto.
  - intros [= <-]. simpl. rewrite Hab. auto.
  - unfold move_target. step_monad. intros [= <-]. exact HP.
  - unfold move_vector. step_monad. intros [= <-]. exact HP.
Qed.

(** X13.  Whatever calls a freshly built plugin has received, [jump]
    leaves the state as it was: on the ground it raises [AttributeError]
    for [vec], which no call ever binds on the core, and in the air it
    returns at once. *)
Theorem jump_never_changes_the_state E position ab m cs s :
  run E cs (PhysicsPlugin_init position ab m) = Some s ->
  (on_ground (pos s) = true -> jump E s = Raise (AttributeError "vec") s)
  /\ (on_ground (pos s) = false -> jump E s = Ok tt s).
Proof.
  intros Hrun. split.
  - intros Hg. apply jump_unbound_vec; [exact Hg|].
    eapply run_keeps_vec_unbound; [|exact Hrun]. reflexivity.
  - apply jump_airborne.
Qed.

Lemma jump_never_changes_the_state_witness :
  jump plain_ground (after plain_ground [Sprint; MoveVector target; StopPhysics; Tick 0] standing)
    = Raise (AttributeError "vec")
            (after plain_ground [Sprint; MoveVector target; StopPhysics; Tick 0] standing).
Proof.
  assert (Hrun : run plain_ground [Sprint; MoveVector target; StopPhysics; Tick 0]
                   (PhysicsPlugin_init {| coords := Vector3.new 0 10 0; on_ground := true |}
                                       {| walking_speed := 1 # 10 |} ∅)
                 = Some (after plain_ground [Sprint; MoveVector target; StopPhysics; Tick 0]
                               standing))
    by (vm_compute; reflexivity).
  apply (jump_never_changes_the_state plain_ground _ _ _ _ _ Hrun).
  vm_compute. reflexivity.
Defined.

(** X14.  Whatever calls a freshly built plugin has received, the
    abilities of its core are those it was built with, and its
    acceleration is the walking speed or the walking speed times
    [PHY_SPR_MUL]: no call makes it anything else. *)
Theorem move_accel_is_walk_or_sprint E position ab m cs s :
  run E cs (PhysicsPlugin_init position ab m) = Some s ->
  abilities (pc s) = ab
  /\ (move_accel (pc s) = walking_speed ab
      \/ move_accel (pc s) = walking_speed ab * PHY_SPR_MUL (const E)).
Proof.
  assert (H : forall cs s0 s1,
    abilities (pc s0) = ab ->
    move_accel (pc s0) = walking_speed ab
    \/ move_accel (pc s0) = walking_speed ab * PHY_SPR_MUL (const E) ->
    run E cs s0 = Some s1 ->
    abilities (pc s1) = ab
    /\ (move_accel (pc s1) = walking_speed ab
        \/ move_accel (pc s1) = walking_speed ab * PHY_SPR_MUL (const E))).
  { clear cs s. induction cs as [|c cs IH]; intros s0 s1 Hab Hacc; simpl.
    - intros [= <-]. split; assumption.
    - destruct (perform E c s0) as [s2|] eqn:Hp; [|discriminate].
      destruct (perform_keeps_modes E ab c s0 s2 Hab Hacc Hp) as [Hab2 Hacc2].
      apply IH; assumption. }
  apply H; [reflexivity | left; reflexivity].
Qed.

Lemma move_accel_is_walk_or_sprint_witness :
  abilities (pc (after floor_below [Sprint; Tick 2; MoveVector target] standing))
    = {| walking_speed := 1 # 10 |}
  /\ (move_accel (pc (after floor_below [Sprint; Tick 2; MoveVector target] standing))
        = walking_speed {| walking_speed := 1 # 10 |}
      \/ move_accel (pc (after floor_below [Sprint; Tick 2; MoveVector target] standing))
        = walking_speed {| walking_speed := 1 # 10 |} * PHY_SPR_MUL (const floor_below)).
Proof.
  assert (Hrun : run floor_below [Sprint; Tick 2; MoveVector target]
                   (PhysicsPlugin_init {| coords := Vector3.new 0 10 0; on_ground := true |}
                                       {| walking_speed := 1 # 10 |} ∅)
                 = Some (after floor_below [Sprint; Tick 2; MoveVector target] standing))
    by (vm_compute; reflexivity).
  exact (move_accel_is_walk_or_sprint floor_below _ _ _ _ _ Hrun).
Defined.

(** ** The minimum over the drained candidates *)

(** C6.  When the first loop has found a candidate, the search goes
    through every candidate left in the deque and returns, with the state
    untouched, a vector that is the first candidate or one of the drained
    candidates at which the collision primitive's result holds a zero
    vector; the first candidate itself is such a candidate.  What is
    returned is no larger in magnitude than the first candidate and than
    every drained candidate whose result holds a zero vector, and it is the
    first candidate when none of those is smaller. *)
Theorem drained_minimum_returned E s fuel c q1 :
  search E (attempted_position E s) (vec s) fuel entry = Some (Break c q1) ->
  exists m,
    get_mtv E fuel s = Ok m s
    /\ (exists v, In v (check_collision E (attempted_position E s) c) /\ is_zero v)
    /\ (m = c
        \/ (In m q1
            /\ exists v, In v (check_collision E (attempted_position E s) m) /\ is_zero v))
    /\ Vector3.dist_sq m <= Vector3.dist_sq c
    /\ (forall x v,
          In x q1 ->
          In v (check_collision E (attempted_position E s) x) ->
          is_zero v ->
          Vector3.dist_sq m <= Vector3.dist_sq x)
    /\ ((forall x v,
           In x q1 ->
           In v (check_collision E (attempted_position E s) x) ->
           is_zero v ->
           Vector3.dist_sq c <= Vector3.dist_sq x) ->
        m = c).
Proof.
  intros Hs. exists (min_possible E (attempted_position E s) c q1).
  split; [apply get_mtv_break, Hs|].
  split.
  { apply accepted_true.
    destruct (search_break_inv E (attempted_position E s) (vec s) (fun _ => True)
                fuel entry c q1) as [Hc _];
      [exact I | constructor | | exact Hs | exact Hc].
    intros f1 f2 _ _. apply List.Forall_forall. intros; exact I. }
  split.
  { destruct (min_possible_In E (attempted_position E s) c q1) as [<- | Hin];
      [left; reflexivity | right].
    apply filter_In in Hin. destruct Hin as [Hin Hacc].
    split; [exact Hin | apply accepted_true, Hacc]. }
  rewrite min_possible_filter. split; [apply py_min_least; left; reflexivity|].
  split.
  - intros x v Hx Hv Hz. apply py_min_least. right. apply filter_In.
    split; [exact Hx | apply accepted_true; eauto].
  - intros Hle. apply py_min_first. intros x Hx.
    apply filter_In in Hx. destruct Hx as [Hx Hacc].
    apply accepted_true in Hacc. destruct Hacc as [v [Hv Hz]].
    exact (Hle x v Hx Hv Hz).
Qed.

Lemma drained_minimum_returned_witness :
  search two_steps (attempted_position two_steps falling) (vec falling) 2 entry
    = Some (Break up [half_up])
  /\ get_mtv two_steps 2 falling = Ok half_up falling.
Proof.
  split; [reflexivity|].
  destruct (drained_minimum_returned two_steps falling 2 up [half_up] eq_refl)
    as [m [Hg [_ [Hm [_ [Hle _]]]]]].
  assert (Heq : m = half_up).
  { destruct Hm as [-> | [[<- | []] _]]; [|reflexivity].
    exfalso.
    assert (H : Vector3.dist_sq up <= Vector3.dist_sq half_up).
    { apply (Hle half_up Vector3.zero).
      - left. reflexivity.
      - left. reflexivity.
      - repeat split; reflexivity. }
    vm_compute in H. apply H. reflexivity. }
  rewrite Heq in Hg. exact Hg.
Defined.

(** ** The search in binary64: what the cap guarantees *)

Section DoubleFacts.

Variable check_collision : Double.t -> Double.t -> list Double.t.
Variables (pos vec : Double.t).

Lemma double_appended_In current_vector tvs c :
  In c (Double.appended vec current_vector tvs) ->
  exists vector,
    In vector tvs
    /\ c = Double.add current_vector vector
    /\ Double.within_cap vec current_vector vector = true.
Proof.
  induction tvs as [|v tvs IH]; simpl; [intros []|].
  destruct (Double.within_cap vec current_vector v) eqn:Hcap.
  - intros [<- | Hin].
    + exists v. auto.
    + destruct (IH Hin) as [v' [? [? ?]]]. exists v'. auto.
  - intros Hin. destruct (IH Hin) as [v' [? [? ?]]]. exists v'. auto.
Qed.

Lemma double_body_keeps f f' :
  Forall (Double.passed_cap_test check_collision pos vec) (Double.q f) ->
  Double.body check_collision pos vec f = Double.Next f' ->
  Forall (Double.passed_cap_test check_collision pos vec) (Double.q f').
Proof.
  intros Hall. unfold Double.body, Double.popleft.
  destruct (Double.q f) as [|c0 q0] eqn:Hq.
  - destruct (negb (Double.py_all (check_collision pos Double.zero))); [discriminate|].
    intros [= <-]. simpl. apply List.Forall_forall. intros c Hin.
    destruct (double_appended_In _ _ _ Hin) as [v [Hv [-> Hcap]]].
    exists Double.zero, v. auto.
  - destruct (negb (Double.py_all (check_collision pos c0))); [discriminate|].
    intros [= <-]. simpl. apply List.Forall_forall. intros c Hin.
    apply in_app_or in Hin. destruct Hin as [Hin | Hin].
    + inversion Hall; subst. rewrite List.Forall_forall in H2. apply H2, Hin.
    + destruct (double_appended_In _ _ _ Hin) as [v [Hv [-> Hcap]]].
      exists c0, v. auto.
Qed.

Lemma double_iterate_keeps n : forall f f',
  Forall (Double.passed_cap_test check_collision pos vec) (Double.q f) ->
  Double.iterate check_collision pos vec n f = Some f' ->
  Forall (Double.passed_cap_test check_collision pos vec) (Double.q f').
Proof.
  induction n as [|n IH]; intros f f' Hall; simpl.
  - intros [= <-]. exact Hall.
  - destruct (Double.while_cond f); [|discriminate].
    destruct (Double.body check_collision pos vec f) as [f1|] eqn:Hb; [|discriminate].
    apply IH. eapply double_body_keeps; eassumption.
Qed.

(** The candidate that leaves the first loop through [break], and those
    left in the deque, are the zero vector the loop starts with or were
    appended. *)
Lemma double_search_break fuel : forall f c q1,
  Forall (Double.passed_cap_test check_collision pos vec) (Double.q f) ->
  Double.search check_collision pos vec fuel f = Some (Double.Break c q1) ->
  (c = Double.zero \/ Double.passed_cap_test check_collision pos vec c) /\ Forall (Double.passed_cap_test check_collision pos vec) q1.
Proof.
  induction fuel as [|fuel IH]; intros f c q1 Hq; simpl;
    destruct (Double.while_cond f); try discriminate.
  destruct (Double.body check_collision pos vec f) as [f1|c' q'] eqn:Hb.
  - apply IH. eapply double_body_keeps; eassumption.
  - intros [= <- <-]. unfold Double.body, Double.popleft in Hb.
    destruct (Double.q f) as [|c0 q0].
    + destruct (negb (Double.py_all (check_collision pos Double.zero))); [|discriminate].
      injection Hb as <- <-. split; [left; reflexivity | constructor].
    + destruct (negb (Double.py_all (check_collision pos c0))); [|discriminate].
      injection Hb as <- <-. inversion Hq; subst. split; [right|]; assumption.
Qed.

Lemma double_py_min_In rest : forall best, In (Double.py_min best rest) (best :: rest).
Proof.
  induction rest as [|item rest IH]; intros best; simpl; [auto|].
  destruct (IH (if Double.lt item best then item else best)) as [H | H].
  - destruct (Double.lt item best); rewrite <- H; auto.
  - auto.
Qed.

Lemma double_drain_In q1 : forall possible_mtv x,
  In x (Double.drain check_collision pos q1 possible_mtv) ->
  In x possible_mtv \/ In x q1.
Proof.
  induction q1 as [|c q1 IH]; intros acc x; simpl; [auto|].
  destruct (negb (Double.py_all (check_collision pos c))); intros Hin;
    apply IH in Hin.
  - destruct Hin as [Hin | Hin]; [|auto].
    apply in_app_or in Hin. destruct Hin as [Hin | [<- | []]]; auto.
  - tauto.
Qed.

Lemma double_min_possible_In c q1 :
  In (Double.min_possible check_collision pos c q1) (c :: q1).
Proof.
  unfold Double.min_possible.
  destruct (Double.drain check_collision pos q1 [c]) as [|best rest] eqn:Hd;
    [left; reflexivity|].
  assert (Hin : In (Double.py_min best rest) (Double.drain check_collision pos q1 [c]))
    by (rewrite Hd; apply double_py_min_In).
  apply double_drain_In in Hin. destruct Hin as [[<- | []] | Hin]; simpl; auto.
Qed.

End DoubleFacts.

(** C5 (amended).  In doubles, every candidate in the deque, at every point
    of the first loop, is the sum [current_vector + vector] of a tested
    candidate and one of its suggestions for which the guard held:
    |(velocity + current_vector) + vector|^2 <= |velocity|^2 + FP_MAGIC, on
    the sum the code tests and as the code computes it, with the velocity
    the search started with and FP_MAGIC the double nearest to 1e-4. *)
Theorem queued_candidates_passed_the_cap_test
    (check_collision : Double.t -> Double.t -> list Double.t) (pos vec : Double.t) n f c :
  Double.iterate check_collision pos vec n Double.entry = Some f ->
  In c (Double.q f) ->
  exists current_vector vector,
    In vector (check_collision pos current_vector)
    /\ c = Double.add current_vector vector
    /\ PrimFloat.leb
         (Double.dist_sq (Double.add (Double.add vec current_vector) vector))
         (PrimFloat.add (Double.dist_sq vec) Double.FP_MAGIC) = true.
Proof.
  intros Hit Hin.
  assert (Hall : Forall (Double.passed_cap_test check_collision pos vec) (Double.q f)).
  { eapply double_iterate_keeps; [|exact Hit]. constructor. }
  rewrite List.Forall_forall in Hall. apply (Hall c Hin).
Qed.

Lemma queued_candidates_passed_the_cap_test_witness :
  exists current_vector vector,
    In vector (Double.slope Double.zero current_vector)
    /\ Double.slope_queued = Double.add current_vector vector
    /\ PrimFloat.leb
         (Double.dist_sq (Double.add (Double.add Double.slope_vec current_vector) vector))
         (PrimFloat.add (Double.dist_sq Double.slope_vec) Double.FP_MAGIC) = true.
Proof.
  apply (queued_candidates_passed_the_cap_test Double.slope Double.zero Double.slope_vec 2
           (Double.Frame [Double.slope_queued] [Double.slope_second])).
  - reflexivity.
  - left. reflexivity.
Defined.

(** C5, as stated, fails in doubles.  On the slope, with the velocity
    (-0.55, -0.9, 1.5), the candidate (0, 1.7, 0) and the suggestion
    (0, 0.10005555384098387, 0), the tested sum is within the cap, and the
    candidate appended, (0, 1.800055553840984, 0), is not:
    |velocity + candidate|^2 <= |velocity|^2 + FP_MAGIC is false for it. *)
Lemma rounding_breaks_the_speed_bound :
  Double.iterate Double.slope Double.zero Double.slope_vec 2 Double.entry
    = Some (Double.Frame [Double.slope_queued] [Double.slope_second])
  /\ Double.within_cap Double.slope_vec Double.slope_first Double.slope_second = true
  /\ Double.add Double.slope_first Double.slope_second = Double.slope_queued
  /\ PrimFloat.leb
       (Double.dist_sq (Double.add Double.slope_vec Double.slope_queued))
       (PrimFloat.add (Double.dist_sq Double.slope_vec) Double.FP_MAGIC) = false.
Proof. repeat split; reflexivity. Qed.

(** X3.  In doubles, whatever [get_mtv] returns is the zero vector or the
    sum [current_vector + vector] of a tested candidate and one of its
    suggestions for which the guard of the cap held on the sum the code
    tests: |(velocity + current_vector) + vector|^2 <= |velocity|^2 +
    FP_MAGIC. *)
Theorem returned_correction_passed_the_cap_test
    (check_collision : Double.t -> Double.t -> list Double.t) (pos vec : Double.t)
    fuel m bailed :
  Double.get_mtv check_collision pos vec fuel = Some (m, bailed) ->
  m = Double.zero
  \/ exists current_vector vector,
       In vector (check_collision pos current_vector)
       /\ m = Double.add current_vector vector
       /\ PrimFloat.leb
            (Double.dist_sq (Double.add (Double.add vec current_vector) vector))
            (PrimFloat.add (Double.dist_sq vec) Double.FP_MAGIC) = true.
Proof.
  unfold Double.get_mtv.
  destruct (Double.search check_collision pos vec fuel Double.entry) as [[c q1|]|] eqn:Hs;
    [|intros [= <- _]; left; reflexivity | discriminate].
  intros [= <- _].
  destruct (double_search_break check_collision pos vec fuel Double.entry c q1)
    as [Hc Hq]; [constructor | exact Hs |].
  destruct (double_min_possible_In check_collision pos c q1) as [<- | Hin].
  - destruct Hc as [-> | Hc]; [left; reflexivity | right; exact Hc].
  - right. rewrite List.Forall_forall in Hq. apply (Hq _ Hin).
Qed.

Lemma returned_correction_passed_the_cap_test_witness :
  Double.get_mtv Double.slope Double.zero Double.slope_vec 3
    = Some (Double.slope_queued, false)
  /\ (Double.slope_queued = Double.zero
      \/ exists current_vector vector,
           In vector (Double.slope Double.zero current_vector)
           /\ Double.slope_queued = Double.add current_vector vector
           /\ PrimFloat.leb
                (Double.dist_sq (Double.add (Double.add Double.slope_vec current_vector) vector))
                (PrimFloat.add (Double.dist_sq Double.slope_vec) Double.FP_MAGIC) = true).
Proof.
  split; [reflexivity|].
  apply (returned_correction_passed_the_cap_test Double.slope Double.zero Double.slope_vec
           3 Double.slope_queued false).
  reflexivity.
Defined.
